(** * Lead scoring of the Renew Power "brain" service

    A shallow embedding of [scoreLead] (src/index.js, lines 163-298) and of
    the helpers it calls ([toStr], [lower], [truthy], [clamp], [pick], [yn],
    lines 50-97), followed by the properties of the scoring result. The
    helpers around the scorer ([normalizePhone], [escapeAirtableString],
    [buildDedupeFormula], [extractConsentFlags], [requireSecret], the routing
    of the endpoints) and the earlier scorer kept in the second half of the
    file are embedded and studied after it.

    Conventions of the embedding.
    - Text is a Rocq [string]. The case mappings and [trim] below act on the
      ASCII range, which is where JavaScript's [toLowerCase], [toUpperCase]
      and [trim] coincide with them; records are taken to carry ASCII text.
    - A value sent in a lead is a JSON value. The scorer looks at a value
      only through [v ?? ""] and [.toString()], so an object is kept as the
      list of its own property names (what decides whether [.toString()]
      is callable) and a number as the text [Number.prototype.toString]
      prints for it.
    - [Number(...)] of a cleaned numeral is the nearest binary64 value; it
      is computed with the Standard Library's [SpecFloat].
    - A run-time [TypeError] is the [Throw] outcome of the [result] type. *)

From Stdlib Require Import ZArith Ascii String SpecFloat.
From stdpp Require Import gmap strings list fin_maps.

Local Open Scope string_scope.

(** ** Outcomes: a value, or a thrown exception *)

Inductive error := TypeError.

Inductive result (A : Type) :=
  | Ok (a : A)
  | Throw (e : error).
Arguments Ok {A} a.
Arguments Throw {A} e.

Definition bind {A B} (m : result A) (k : A -> result B) : result B :=
  match m with
  | Ok a => k a
  | Throw e => Throw e
  end.

Declare Scope js_scope.
Delimit Scope js_scope with js.
Notation "'let*' x := m 'in' k" := (bind m (fun x => k))
  (at level 10, x name, m at level 100, k at level 200,
   format "'[v' 'let*'  x  :=  m  'in' '/' k ']'") : js_scope.
Local Open Scope js_scope.

(** ** Strings *)

Module Str.

Definition code (c : ascii) : N := N_of_ascii c.

(** White space and line terminators of the ASCII range: TAB, LF, VT, FF,
    CR and SPACE. *)
Definition is_space (c : ascii) : bool :=
  ((9 <=? code c) && (code c <=? 13) || (code c =? 32))%N.

Definition is_upper (c : ascii) : bool := ((65 <=? code c) && (code c <=? 90))%N.
Definition is_lower (c : ascii) : bool := ((97 <=? code c) && (code c <=? 122))%N.
Definition is_digit (c : ascii) : bool := ((48 <=? code c) && (code c <=? 57))%N.

Definition lower_char (c : ascii) : ascii :=
  if is_upper c then ascii_of_N (code c + 32) else c.
Definition upper_char (c : ascii) : ascii :=
  if is_lower c then ascii_of_N (code c - 32) else c.

Fixpoint map (f : ascii -> ascii) (s : string) : string :=
  match s with
  | EmptyString => EmptyString
  | String c s' => String (f c) (map f s')
  end.

Fixpoint filter (p : ascii -> bool) (s : string) : string :=
  match s with
  | EmptyString => EmptyString
  | String c s' => if p c then String c (filter p s') else filter p s'
  end.

Definition toLowerCase : string -> string := map lower_char.
Definition toUpperCase : string -> string := map upper_char.

Fixpoint trimStart (s : string) : string :=
  match s with
  | EmptyString => EmptyString
  | String c s' => if is_space c then trimStart s' else s
  end.

Fixpoint trimEnd (s : string) : string :=
  match s with
  | EmptyString => EmptyString
  | String c s' =>
      match trimEnd s' with
      | EmptyString => if is_space c then EmptyString else String c EmptyString
      | t => String c t
      end
  end.

Definition trim (s : string) : string := trimEnd (trimStart s).

(** [s.includes(needle)] *)
Fixpoint includes (s needle : string) : bool :=
  String.prefix needle s ||
  match s with
  | EmptyString => false
  | String _ s' => includes s' needle
  end.

(** [parts.join(sep)] *)
Definition join (sep : string) (parts : list string) : string :=
  String.concat sep parts.

(** A string is truthy when it is not empty. *)
Definition nonempty (s : string) : bool := negb (String.eqb s "").

End Str.

(** [list.includes(s)] on a list of strings. *)
Definition Array_includes (l : list string) (s : string) : bool :=
  existsb (String.eqb s) l.

(** ** Numbers produced by [Number(...)] *)

Module Num.

Definition prec : Z := 53.
Definition emax : Z := 1024.

(** The binary64 value of an integer literal of the source. *)
Definition lit (z : Z) : spec_float := binary_normalize prec emax z 0 false.

(** The binary64 value nearest to [m / 10^k]. *)
Definition of_decimal (m : N) (k : nat) : spec_float :=
  match m with
  | N0 => S754_zero false
  | Npos p =>
      SFdiv prec emax (S754_finite false p 0)
        (S754_finite false (Z.to_pos (10 ^ Z.of_nat k)) 0)
  end.

Definition digit_val (c : ascii) : N := (Str.code c - 48)%N.

(** The value of a string of decimal digits, most significant first. *)
Fixpoint digits_val (acc : N) (s : string) : N :=
  match s with
  | EmptyString => acc
  | String c s' => digits_val (10 * acc + digit_val c)%N s'
  end.

Definition all_digits (s : string) : bool :=
  String.eqb (Str.filter Str.is_digit s) s.

(** Splits at the first ["."]: the text before it, and the text after it
    when there is one. *)
Fixpoint split_dot (s : string) : string * option string :=
  match s with
  | EmptyString => (EmptyString, None)
  | String c s' =>
      if Ascii.eqb c "." then (EmptyString, Some s')
      else let '(i, f) := split_dot s' in (String c i, f)
  end.

(** [Number(s)] for a string [s] made of digits and dots only, which is
    what [replace(/[^0-9.]/g, "")] leaves: the empty string is [0], a
    decimal numeral ([12], [12.], [12.5], [.5]) is its rounded value and
    anything else ([.], [1.2.3]) is [NaN]. *)
Definition Number (s : string) : spec_float :=
  match split_dot s with
  | (i, None) =>
      if all_digits i then of_decimal (digits_val 0 i) 0 else S754_nan
  | (i, Some f) =>
      if all_digits i && all_digits f && Str.nonempty (i ++ f)
      then of_decimal (digits_val 0 (i ++ f)) (String.length f)
      else S754_nan
  end.

Definition isNaN (x : spec_float) : bool :=
  match x with
  | S754_nan => true
  | _ => false
  end.
Definition gt (x y : spec_float) : bool := SFltb y x.
Definition ge (x y : spec_float) : bool := SFleb y x.
Definition le (x y : spec_float) : bool := SFleb x y.

End Num.

(** ** Values of a lead record *)

(** A JSON value, or [undefined] for a key that is not there. [VNum] holds
    the text [Number.prototype.toString] prints for the number (["300"] for
    [300], ["0.5"] for [0.5]) and [VObj] the names of the object's own
    properties: the scorer observes a value through nothing else. *)
#[warnings="-register-all"] Inductive value :=
  | VUndefined
  | VNull
  | VStr (s : string)
  | VNum (printed : string)
  | VBool (b : bool)
  | VArr (elems : list value)
  | VObj (own_keys : list string).

Abbreviation LeadRecord := (gmap string value).

(** [obj?.[k]] for a key [k] that is not a property name inherited from
    [Object.prototype] (such as [toString] or [constructor]): the value of
    the record's own key. Every key index.js reads is of this kind. *)
Definition get (obj : LeadRecord) (k : string) : value :=
  default VUndefined (obj !! k).

(** [v.toString()] for a value that is neither [undefined] nor [null]. An
    object parsed from JSON cannot hold a function, so an own property named
    [toString] makes the call fail; an array joins the strings of its
    elements, [null] counting as empty. *)
Fixpoint toString (v : value) : result string :=
  match v with
  | VUndefined | VNull => Throw TypeError
  | VStr s => Ok s
  | VNum printed => Ok printed
  | VBool b => Ok (if b then "true" else "false")
  | VArr elems =>
      let fix each (l : list value) : result (list string) :=
        match l with
        | [] => Ok []
        | x :: l' =>
            let* s := match x with
                      | VUndefined | VNull => Ok ""
                      | _ => toString x
                      end in
            let* ss := each l' in
            Ok (s :: ss)
        end in
      let* parts := each elems in
      Ok (Str.join "," parts)
  | VObj own_keys =>
      if Array_includes own_keys "toString" then Throw TypeError
      else Ok "[object Object]"
  end.

(** [function toStr(v) { return (v ?? "").toString().trim(); }] *)
Definition toStr (v : value) : result string :=
  let* s := toString match v with
                     | VUndefined | VNull => VStr ""
                     | _ => v
                     end in
  Ok (Str.trim s).

(** [function lower(v) { return toStr(v).toLowerCase(); }] *)
Definition lower (v : value) : result string :=
  let* s := toStr v in
  Ok (Str.toLowerCase s).

(** [function truthy(v)] *)
Definition truthy (v : value) : result bool :=
  let* s := lower v in
  Ok (String.eqb s "true" || String.eqb s "yes" || String.eqb s "1"
      || String.eqb s "y" || String.eqb s "checked" || String.eqb s "on").

(** [function clamp(n, min, max) { return Math.max(min, Math.min(max, n)); }] *)
Definition clamp (n min max : Z) : Z := Z.max min (Z.min max n).

(** [function pick(obj, keys)]: the first value that is present and whose
    trimmed text is not empty. *)
Fixpoint pick (obj : LeadRecord) (keys : list string) : result value :=
  match keys with
  | [] => Ok VUndefined
  | k :: keys' =>
      let v := get obj k in
      match v with
      | VUndefined | VNull => pick obj keys'
      | _ =>
          let* s := toStr v in
          if Str.nonempty s then Ok v else pick obj keys'
      end
  end.

(** [function yn(v)] *)
Definition yn (v : value) : result string :=
  let* s := lower v in
  if Array_includes ["yes"; "y"; "true"; "1"; "checked"; "on"] s then Ok "yes"
  else if Array_includes ["no"; "n"; "false"; "0"; "off"] s then Ok "no"
  else Ok "unknown".

(** ** The scorer *)

(** [const { REQUIRE_CA = "false", REQUIRE_KERN = "false" } = process.env]:
    the two optional gate switches, [None] when the variable is not set. *)
Record GateConfig := {
  REQUIRE_CA : option string;
  REQUIRE_KERN : option string
}.

Record ScoreResult := {
  score : Z;
  tier : string;
  lead_temperature : string;
  reject_reasons : list string;
  score_reasons : string;
  marshall_eligible : bool
}.

(** The two variables [scoreLead] updates while it walks through the
    signals: [let score] and [const reasons]. *)
Record vars := {
  v_score : Z;
  v_reasons : list string
}.

(** [arr.push(x)] *)
Definition push (arr : list string) (x : string) : list string :=
  (arr ++ [x])%list.

(** [score += d; reasons.push(why)] *)
Definition add (d : Z) (why : string) (st : vars) : vars :=
  {| v_score := (v_score st + d)%Z; v_reasons := push (v_reasons st) why |}.

(** [reasons.push(why)] *)
Definition note (why : string) (st : vars) : vars :=
  {| v_score := v_score st; v_reasons := push (v_reasons st) why |}.

(** [x.replace(/[^0-9.]/g, "")] *)
Definition digits_and_dots (x : string) : string :=
  Str.filter (fun c => Str.is_digit c || Ascii.eqb c ".") x.

(** [Math.round] on the running score, which only ever holds an integer
    (50 plus integer steps), so that rounding leaves it as it is. *)
Definition Math_round (n : Z) : Z := n.

(** Lines 168-169: [requireCA = truthy(REQUIRE_CA)] and
    [requireKern = truthy(REQUIRE_KERN)]. *)
Definition requireCA (env : GateConfig) : result bool :=
  truthy (VStr (default "false" (REQUIRE_CA env))).
Definition requireKern (env : GateConfig) : result bool :=
  truthy (VStr (default "false" (REQUIRE_KERN env))).

(** Lines 171-172: the upper-cased state and the lower-cased county. *)
Definition scoreLead_state (lead : LeadRecord) : result string :=
  let* picked := pick lead ["State"; "state"] in
  let* s := toStr picked in
  Ok (Str.toUpperCase s).
Definition scoreLead_county (lead : LeadRecord) : result string :=
  let* picked := pick lead ["County"; "county"] in
  lower picked.

(** Lines 167-179: the optional geo gates; the result is [rejectReasons]. *)
Definition scoreLead_gates (env : GateConfig) (lead : LeadRecord)
  : result (list string) :=
  let rejectReasons : list string := [] in
  let* requireCA := requireCA env in
  let* requireKern := requireKern env in
  let* state := scoreLead_state lead in
  let* county := scoreLead_county lead in
  let rejectReasons :=
    if requireCA && Str.nonempty state
       && negb (String.eqb state "CA") && negb (String.eqb state "CALIFORNIA")
    then push rejectReasons "Outside California" else rejectReasons in
  let rejectReasons :=
    if requireKern && Str.nonempty county && negb (Str.includes county "kern")
    then push rejectReasons "Outside Kern County" else rejectReasons in
  Ok rejectReasons.

(** Lines 192-193: [owns = yn(pick(lead, [...]))]. *)
Definition scoreLead_owns (lead : LeadRecord) : result string :=
  let* ownsRaw :=
    pick lead ["Owns property?"; "owns_property"; "owns"; "own"; "homeowner"] in
  yn ownsRaw.

(** Lines 213-225: average monthly bill. *)
Definition scoreLead_bill (lead : LeadRecord) (st : vars) : result vars :=
  let* picked := pick lead ["Avg monthly bill"; "avg_monthly_bill"; "bill"] in
  let* billRaw := toStr picked in
  let billNum := Num.Number (digits_and_dots billRaw) in
  if negb (Num.isNaN billNum) && Num.gt billNum (Num.lit 0) then
    if Num.ge billNum (Num.lit 250) then Ok (add 18 "High bill" st)
    else if Num.ge billNum (Num.lit 150) then Ok (add 10 "Mid bill" st)
    else Ok (add 2 "Low bill" st)
  else
    let* b := lower (VStr billRaw) in
    if Str.includes b "250" then Ok (add 18 "High bill" st)
    else if Str.includes b "150" then Ok (add 10 "Mid bill" st)
    else if Str.nonempty b then Ok (add 4 "Bill provided" st)
    else Ok (note "Bill unknown" st).


(** Lines 228-239: roof age. *)
Definition scoreLead_roof (lead : LeadRecord) (st : vars) : result vars :=
  let* picked := pick lead ["Roof age (years)"; "roof_age_years"; "roof_age"] in
  let* roofAgeRaw := toStr picked in
  let roofAgeNum := Num.Number (digits_and_dots roofAgeRaw) in
  if negb (Num.isNaN roofAgeNum) && Num.gt roofAgeNum (Num.lit 0) then
    if Num.le roofAgeNum (Num.lit 10) then Ok (add 12 "Roof <= 10 years" st)
    else if Num.le roofAgeNum (Num.lit 20) then Ok (add 6 "Roof 10–20 years" st)
    else Ok (note "Roof > 20 years" st)
  else
    let* r := lower (VStr roofAgeRaw) in
    if Str.includes r "under" || Str.includes r "<" || Str.includes r "10"
    then Ok (add 12 "Roof likely good" st)
    else if Str.includes r "20" then Ok (add 6 "Roof maybe" st)
    else Ok (note "Roof unknown" st).

(** Lines 242-251: sun exposure. *)
Definition scoreLead_sun (lead : LeadRecord) (st : vars) : result vars :=
  let* picked := pick lead ["Sun exposure"; "sun_exposure"] in
  let* sun := lower picked in
  if Str.includes sun "full" || Str.includes sun "great" || Str.includes sun "high"
  then Ok (add 10 "Good sun exposure" st)
  else if Str.includes sun "partial" || Str.includes sun "medium"
  then Ok (add 5 "Medium sun exposure" st)
  else if Str.nonempty sun then Ok (note "Low/unknown sun exposure" st)
  else Ok (note "Sun exposure unknown" st).

(** Lines 254-258: HOA friction. *)
Definition scoreLead_hoa (lead : LeadRecord) (st : vars) : result vars :=
  let* hoaRaw := pick lead ["HOA?"; "hoa"; "has_hoa"] in
  let* hoa := yn hoaRaw in
  if String.eqb hoa "yes" then Ok (add (-8) "HOA friction" st)
  else if String.eqb hoa "no" then Ok (add 4 "No HOA" st)
  else Ok (add (-2) "HOA unknown" st).

(** Lines 261-270: annual true-up cost. *)
Definition scoreLead_trueup (lead : LeadRecord) (st : vars) : result vars :=
  let* picked := pick lead ["Annual true-up cost"; "true_up"; "trueup"] in
  let* trueUpRaw := toStr picked in
  let trueUpNum := Num.Number (digits_and_dots trueUpRaw) in
  let* trueUpTxt := lower (VStr trueUpRaw) in
  if negb (Num.isNaN trueUpNum) && Num.gt trueUpNum (Num.lit 0) then
    if Num.ge trueUpNum (Num.lit 500) then Ok (add 6 "High true-up cost" st)
    else Ok (add 2 "True-up cost indicated" st)
  else if Str.includes trueUpTxt "yes" || Str.includes trueUpTxt "true"
  then Ok (add 4 "True-up indicated" st)
  else Ok st.

(** Lines 273-276: property type. *)
Definition scoreLead_ptype (lead : LeadRecord) (st : vars) : result vars :=
  let* picked := pick lead ["Property type"; "property_type"] in
  let* ptype := lower picked in
  if Str.includes ptype "single" then Ok (add 4 "Single family" st)
  else if Str.includes ptype "mobile" || Str.includes ptype "manufact"
  then Ok (add (-6) "Mobile/manufactured complexity" st)
  else if Str.nonempty ptype then Ok (note "Property type noted" st)
  else Ok st.

(** Lines 279-297: clamp, tiering and the returned object. *)
Definition scoreLead_verdict (rejectReasons : list string) (st : vars)
  : ScoreResult :=
  let score := clamp (Math_round (v_score st)) 0 100 in
  let '(tier, temp, eligible) :=
    if (75 <=? score)%Z then ("Qualified – Send to Marshall", "Hot", true)
    else if (55 <=? score)%Z then ("Warm – Review Later", "Warm", false)
    else ("Educational Only", "Cold", false) in
  {| score := score;
     tier := tier;
     lead_temperature := temp;
     reject_reasons := rejectReasons;
     score_reasons := Str.join " | " (v_reasons st);
     marshall_eligible := eligible |}.

(** [function scoreLead(lead)], lines 163-298. *)
Definition scoreLead (env : GateConfig) (lead : LeadRecord)
  : result ScoreResult :=
  let reasons : list string := [] in
  let* rejectReasons := scoreLead_gates env lead in
  if (0 <? length rejectReasons)%nat then
    Ok {| score := 0;
          tier := "Disqualified";
          lead_temperature := "Cold";
          reject_reasons := rejectReasons;
          score_reasons := Str.join " | " rejectReasons;
          marshall_eligible := false |}
  else
    let* owns := scoreLead_owns lead in
    let isOwner := String.eqb owns "yes" in
    if negb isOwner then
      let rejectReasons := push rejectReasons "Not homeowner" in
      Ok {| score := 0;
            tier := "Disqualified";
            lead_temperature := "Cold";
            reject_reasons := rejectReasons;
            score_reasons := "Not homeowner";
            marshall_eligible := false |}
    else
      let reasons := push reasons "Homeowner" in
      let st := {| v_score := 50; v_reasons := reasons |} in
      let* st := scoreLead_bill lead st in
      let* st := scoreLead_roof lead st in
      let* st := scoreLead_sun lead st in
      let* st := scoreLead_hoa lead st in
      let* st := scoreLead_trueup lead st in
      let* st := scoreLead_ptype lead st in
      Ok (scoreLead_verdict rejectReasons st).

(** ** The helpers around the scorer *)

(** [s.slice(n)] for a non-negative [n]: the string without its first [n]
    characters. *)
Fixpoint drop_chars (n : nat) (s : string) : string :=
  match n, s with
  | O, _ => s
  | S n', String _ s' => drop_chars n' s'
  | S _, EmptyString => EmptyString
  end.

(** [s.slice(-n)]: the last [n] characters, the whole string when it is
    shorter. *)
Definition slice_last (n : nat) (s : string) : string :=
  drop_chars (String.length s - n) s.

(** [function normalizePhone(phone)], lines 67-72; [\D] is every character
    that is not one of 0-9. *)
Definition normalizePhone (phone : value) : result string :=
  let* s := toStr phone in
  let digits := Str.filter Str.is_digit s in
  if negb (Str.nonempty digits) then Ok ""
  else if (10 <? String.length digits)%nat then Ok (slice_last 10 digits)
  else Ok digits.

(** [s.replace(/'/g, "\\'")]: a backslash goes in front of every quote. *)
Fixpoint escape_quotes (s : string) : string :=
  match s with
  | EmptyString => EmptyString
  | String c s' =>
      if Ascii.eqb c "'" then String "\" (String "'" (escape_quotes s'))
      else String c (escape_quotes s')
  end.

(** [function escapeAirtableString(s)], lines 74-76. *)
Definition escapeAirtableString (s : value) : result string :=
  let* t := toStr s in
  Ok (escape_quotes t).

(** [lead[k1] ?? lead[k2] ?? ... ?? lead[kn]]: the first value that is
    neither [undefined] nor [null]; the last one when all the others are. *)
Fixpoint coalesce (lead : LeadRecord) (keys : list string) : value :=
  match keys with
  | [] => VUndefined
  | [k] => get lead k
  | k :: keys' =>
      match get lead k with
      | VUndefined | VNull => coalesce lead keys'
      | v => v
      end
  end.

Record ConsentFlags := {
  opt_in_email : bool;
  opt_in_sms : bool
}.

(** [function extractConsentFlags(lead)], lines 132-149. *)
Definition extractConsentFlags (lead : LeadRecord) : result ConsentFlags :=
  let emailConsent :=
    coalesce lead ["opt_in_email"; "Opt-in email?"; "Email consent checkbox";
                   "email_consent"] in
  let smsConsent :=
    coalesce lead ["opt_in_sms"; "Opt-in SMS?"; "SMS consent checkbox";
                   "sms_consent"] in
  let* email := truthy emailConsent in
  let* sms := truthy smsConsent in
  Ok {| opt_in_email := email; opt_in_sms := sms |}.

(** The argument of [buildDedupeFormula]; its callers pass strings. *)
Record DedupeKeys := {
  phone : string;
  email : string;
  address : string;
  zip : string
}.

(** [function buildDedupeFormula({ phone, email, address, zip })],
    lines 320-335. *)
Definition buildDedupeFormula (keys : DedupeKeys) : result string :=
  let parts : list string := [] in
  let* parts :=
    if Str.nonempty (phone keys) then
      let* p := escapeAirtableString (VStr (phone keys)) in
      Ok (push parts ("{Phone}='" ++ p ++ "'"))
    else Ok parts in
  let* parts :=
    if Str.nonempty (email keys) then
      let* l := lower (VStr (email keys)) in
      let* e := escapeAirtableString (VStr l) in
      Ok (push parts ("LOWER({Email})='" ++ e ++ "'"))
    else Ok parts in
  let* parts :=
    if Str.nonempty (address keys) && Str.nonempty (zip keys) then
      let* l := lower (VStr (address keys)) in
      let* a := escapeAirtableString (VStr l) in
      let* t := toStr (VStr (zip keys)) in
      let* z := escapeAirtableString (VStr t) in
      Ok (push parts
            ("AND(LOWER({Address})='" ++ a ++ "', {Zip}='" ++ z ++ "')"))
    else if Str.nonempty (address keys) then
      let* l := lower (VStr (address keys)) in
      let* a := escapeAirtableString (VStr l) in
      Ok (push parts ("LOWER({Address})='" ++ a ++ "'"))
    else Ok parts in
  if negb (0 <? length parts)%nat then Ok ""
  else Ok ("OR(" ++ Str.join "," parts ++ ")").

(** Lines 478-491 of [upsertLeadToAirtable]: the keys a lead is looked up
    by. The [requireEnv] guards that run before them (lines 473-475) are in
    [upsertLeadToAirtable_lookup]. *)
Definition upsertLeadToAirtable_keys (lead : LeadRecord) : result DedupeKeys :=
  let* phoneNorm :=
    normalizePhone
      (coalesce lead ["phone"; "Phone"; "What is your best phone number"]) in
  let* email :=
    toStr (coalesce lead ["email"; "Email"; "What is your best email"]) in
  let* address :=
    toStr (coalesce lead
             ["address"; "Address";
              "What is your property address you’re asking in regards to?"]) in
  let* zip := toStr (coalesce lead ["zip"; "Zip"; "Zip/postal code"]) in
  Ok {| phone := if Str.nonempty phoneNorm then phoneNorm else "";
        email := email; address := address; zip := zip |}.

(** Lines 362-363 of [airtableFindExisting], on the keys of a lead: the
    filter formula; when it is empty no record is looked up and the lead is
    created. *)
Definition upsertLeadToAirtable_formula (lead : LeadRecord) : result string :=
  let* keys := upsertLeadToAirtable_keys lead in
  buildDedupeFormula keys.

(** ** Writing a lead to Airtable *)

(** [process.env]: the variables that are set, with their text. *)
Abbreviation ProcessEnv := (gmap string string).

(** [function requireEnv(name)], lines 33-35. It reads [process.env]
    itself, not the constants of lines 14-29, so the default ["Leads"] of
    [AIRTABLE_TABLE_NAME] does not count. [None] is a normal return and
    [Some message] the [Error] thrown, with its message. *)
Definition requireEnv (env : ProcessEnv) (name : string) : option string :=
  match env !! name with
  | Some (String _ _) => None
  | _ => Some ("Missing env var: " ++ name)
  end.

(** The [meta] argument of [upsertLeadToAirtable]; its caller (lines
    536-541) passes strings. *)
Record Meta := {
  trace_id : string;
  source_name : string;
  source_run_id : string
}.

(** A value of an Airtable column: text, a number or a checkbox. *)
Inductive column :=
  | Text (s : string)
  | Count (n : Z)
  | Checkbox (b : bool).

(** [function buildAirtableFieldsFromLead(lead, scored, consentFlags, meta)],
    lines 390-470. [now] is what [nowIso()] returns. With [meta.source_name]
    a string, the last alternative ["Tally"] of line 427 is never reached. *)
Definition buildAirtableFieldsFromLead
    (now : string) (lead : LeadRecord) (scored : ScoreResult)
    (consentFlags : ConsentFlags) (meta : Meta)
    : result (list (string * column)) :=
  let optInEmail := opt_in_email consentFlags in
  let optInSms := opt_in_sms consentFlags in
  let outreachAllowed := optInEmail || optInSms in
  let doNotContact := negb outreachAllowed in
  let* name := toStr (coalesce lead ["name"; "Lead name"; "What is your name"]) in
  let* email := toStr (coalesce lead ["email"; "Email"; "What is your best email"]) in
  let* phoneRaw :=
    toStr (coalesce lead ["phone"; "Phone"; "What is your best phone number"]) in
  let* address :=
    toStr (coalesce lead
             ["address"; "Address";
              "What is your property address you’re asking in regards to?"]) in
  let* city := toStr (coalesce lead ["city"; "City"]) in
  let* state := toStr (coalesce lead ["state"; "State"]) in
  let* zip :=
    toStr (coalesce lead ["zip"; "Zip"; "Zip/postal code"; "Zip/postal code "]) in
  let* propertyType :=
    toStr (coalesce lead
             ["property_type"; "Property type"; "What type of property is this?"]) in
  let* roofType :=
    toStr (coalesce lead ["roof_type"; "Roof type"; "What is your roof made of?"]) in
  let* roofAgeYears :=
    toStr (coalesce lead
             ["roof_age_years"; "Roof age (years)"; "How old is your roof?"]) in
  let* sunExposure :=
    toStr (coalesce lead
             ["sun_exposure"; "Sun exposure"; "How much sun does your roof get?"]) in
  let* hoa := toStr (coalesce lead ["hoa"; "HOA?"; "Is your home part of an HOA?"]) in
  let* owns :=
    toStr (coalesce lead
             ["owns_property"; "Owns property?"; "Do you own this property?"]) in
  let* avgMonthlyBill :=
    toStr (coalesce lead
             ["avg_monthly_bill"; "Avg monthly bill";
              "What’s your average monthly electricity bill?"]) in
  let* trueUp :=
    toStr (coalesce lead
             ["true_up"; "Annual true-up cost";
              "Have you received high true-up bills? (End of year PG&E even with solar)"]) in
  let* whatMattersMost :=
    toStr (coalesce lead
             ["what_matters_most"; "What matters most";
              "What matters MOST to you in a solar investment?"]) in
  let* approach :=
    toStr (coalesce lead
             ["approach"; "Approach to home improvement";
              "Your approach to major home improvements"]) in
  let* leadSource :=
    toStr (match coalesce lead ["lead_source"; "Lead source"] with
           | VUndefined | VNull => VStr (source_name meta)
           | v => v
           end) in
  Ok [ ("Lead name", Text name);
       ("Phone", Text phoneRaw);
       ("Email", Text email);
       ("Address", Text address);
       ("City", Text city);
       ("State", Text state);
       ("Zip", Text zip);
       ("Property type", Text propertyType);
       ("Roof type", Text roofType);
       ("Roof age (years)", Text roofAgeYears);
       ("Sun exposure", Text sunExposure);
       ("HOA?", Text hoa);
       ("Owns property?", Text owns);
       ("Avg monthly bill", Text avgMonthlyBill);
       ("Annual true-up cost", Text trueUp);
       ("What matters most", Text whatMattersMost);
       ("Approach to home improvement", Text approach);
       ("Score", Count (score scored));
       ("Tier", Text (tier scored));
       ("Lead temperature", Text (lead_temperature scored));
       ("Score reasons", Text (score_reasons scored));
       ("Reject reasons", Text (Str.join " | " (reject_reasons scored)));
       ("AI tier", Text (tier scored));
       ("Needs scoring", Checkbox false);
       ("Opt-in email?", Checkbox optInEmail);
       ("Opt-in SMS?", Checkbox optInSms);
       ("Outreach allowed", Checkbox outreachAllowed);
       ("Do not contact", Checkbox doNotContact);
       ("Lead source", Text leadSource);
       ("Internal notes", Text ("[trace:" ++ trace_id meta ++ "] Scored at " ++ now)) ].

(** How [upsertLeadToAirtable] reaches its first request. *)
Inductive prepared :=
  | MissingEnv (message : string)
  | Thrown (e : error)
  | Lookup (fields : list (string * column)) (formula : string).

(** [async function upsertLeadToAirtable(lead, scored, meta)], lines 472-491
    and, in [airtableFindExisting], line 362: the three [requireEnv] guards,
    the lookup keys, the consent flags, the fields to write and the filter
    formula, which is all that is computed before the first request. *)
Definition upsertLeadToAirtable_lookup
    (env : ProcessEnv) (now : string)
    (lead : LeadRecord) (scored : ScoreResult) (meta : Meta) : prepared :=
  match requireEnv env "AIRTABLE_API_KEY" with
  | Some message => MissingEnv message
  | None =>
  match requireEnv env "AIRTABLE_BASE_ID" with
  | Some message => MissingEnv message
  | None =>
  match requireEnv env "AIRTABLE_TABLE_NAME" with
  | Some message => MissingEnv message
  | None =>
      let computed :=
        let* keys := upsertLeadToAirtable_keys lead in
        let* consentFlags := extractConsentFlags lead in
        let* fields :=
          buildAirtableFieldsFromLead now lead scored consentFlags meta in
        let* formula := buildDedupeFormula keys in
        Ok (fields, formula) in
      match computed with
      | Ok (fields, formula) => Lookup fields formula
      | Throw e => Thrown e
      end
  end end end.

Record Routing := {
  route_to_marshall : bool;
  allow_sms : bool;
  allow_email : bool;
  outreach_allowed : bool;
  do_not_contact : bool
}.

(** Lines 520-526 (and 548-554): the [routing] object of the two
    endpoints. *)
Definition routing (scored : ScoreResult) (consent : ConsentFlags) : Routing :=
  {| route_to_marshall := String.eqb (tier scored) "Qualified – Send to Marshall";
     allow_sms := opt_in_sms consent;
     allow_email := opt_in_email consent;
     outreach_allowed := opt_in_sms consent || opt_in_email consent;
     do_not_contact := negb (opt_in_sms consent || opt_in_email consent) |}.

(** Lines 517-528 of [POST /score]: what the handler computes from the
    lead, the trace id apart. *)
Definition score_endpoint (env : GateConfig) (lead : LeadRecord)
  : result (ScoreResult * ConsentFlags * Routing) :=
  let* scored := scoreLead env lead in
  let* consent := extractConsentFlags lead in
  Ok (scored, consent, routing scored consent).

(** [NODE_ENV = "development"] and [BRAIN_SECRET] of [process.env]. *)
Record ServerEnv := {
  NODE_ENV : option string;
  BRAIN_SECRET : option string
}.

(** What the middleware does with a request: hand it on, or answer with a
    status and an error message. *)
Inductive Verdict :=
  | Next
  | Refuse (status : nat) (error : string).

(** [function requireSecret(req, res, next)], lines 106-121, on the value of
    the [x-brain-secret] header. *)
Definition requireSecret (env : ServerEnv) (header : option string) : Verdict :=
  let NODE_ENV := default "development" (NODE_ENV env) in
  if negb (Str.nonempty (default "" (BRAIN_SECRET env))) then
    if String.eqb NODE_ENV "production" then
      Refuse 500 "Server misconfigured (missing BRAIN_SECRET)"
    else Next
  else
    let secret := header in
    if negb (Str.nonempty (default "" secret))
       || negb (String.eqb (default "" secret) (default "" (BRAIN_SECRET env)))
    then Refuse 401 "Unauthorized"
    else Next.

(** ** The earlier scorer kept in the second half of index.js *)

Module Legacy.

(** [s.replace(/\s+/g, " ")]: every run of white space becomes one space. *)
Fixpoint collapse_spaces (s : string) : string :=
  match s with
  | EmptyString => EmptyString
  | String c s' =>
      if Str.is_space c then
        match s' with
        | String c' _ =>
            if Str.is_space c' then collapse_spaces s'
            else String " " (collapse_spaces s')
        | EmptyString => String " " EmptyString
        end
      else String c (collapse_spaces s')
  end.

(** [function normalizeAddress(addr)], lines 638-643. *)
Definition normalizeAddress (addr : value) : result string :=
  let* l := lower addr in
  let spaced := collapse_spaces l in
  let bare :=
    Str.filter (fun c => negb (Ascii.eqb c "." || Ascii.eqb c "," || Ascii.eqb c "#"))
      spaced in
  Ok (Str.trim bare).

(** [lead[k1] ?? ... ?? lead[kn] ?? dflt] *)
Fixpoint coalesce_or (lead : LeadRecord) (keys : list string) (dflt : value) : value :=
  match keys with
  | [] => dflt
  | k :: keys' =>
      match get lead k with
      | VUndefined | VNull => coalesce_or lead keys' dflt
      | v => v
      end
  end.

(** Lines 709-710: [owns] and [isOwner]. *)
Definition scoreLead_owns (lead : LeadRecord) : result string :=
  lower (coalesce lead ["Owns property?"; "owns_property"; "owns"; "own"]).

Definition isOwner (owns : string) : bool :=
  Str.includes owns "yes" || Str.includes owns "true" || String.eqb owns "1"
  || Str.includes owns "own".

(** Lines 730-743: average monthly bill. *)
Definition scoreLead_bill (lead : LeadRecord) (st : vars) : result vars :=
  let* billRaw :=
    toStr (coalesce lead ["Avg monthly bill"; "avg_monthly_bill"; "bill"]) in
  let billNum := Num.Number (digits_and_dots billRaw) in
  if negb (Num.isNaN billNum) && Num.gt billNum (Num.lit 0) then
    if Num.ge billNum (Num.lit 250) then Ok (add 25 "High bill" st)
    else if Num.ge billNum (Num.lit 150) then Ok (add 15 "Mid bill" st)
    else Ok (add 5 "Low bill" st)
  else
    let* billTxt := lower (VStr billRaw) in
    if Str.includes billTxt "250" then Ok (add 25 "High bill" st)
    else if Str.includes billTxt "150" then Ok (add 15 "Mid bill" st)
    else if Str.nonempty billTxt then Ok (add 8 "Bill provided" st)
    else Ok (add 0 "Bill unknown" st).

(** Lines 746-757: roof age. *)
Definition scoreLead_roof (lead : LeadRecord) (st : vars) : result vars :=
  let* roofAgeRaw :=
    toStr (coalesce lead ["Roof age (years)"; "roof_age_years"; "roof_age"]) in
  let roofAgeNum := Num.Number (digits_and_dots roofAgeRaw) in
  if negb (Num.isNaN roofAgeNum) && Num.gt roofAgeNum (Num.lit 0) then
    if Num.le roofAgeNum (Num.lit 10) then Ok (add 20 "Roof <= 10 years" st)
    else if Num.le roofAgeNum (Num.lit 20) then Ok (add 10 "Roof 10–20 years" st)
    else Ok (add 0 "Roof > 20 years" st)
  else
    let* r := lower (VStr roofAgeRaw) in
    if Str.includes r "under" || Str.includes r "<" || Str.includes r "10"
    then Ok (add 20 "Roof likely good" st)
    else if Str.includes r "20" then Ok (add 10 "Roof maybe" st)
    else Ok (add 0 "Roof unknown" st).

(** Lines 760-767: sun exposure. *)
Definition scoreLead_sun (lead : LeadRecord) (st : vars) : result vars :=
  let* sun := lower (coalesce_or lead ["Sun exposure"; "sun_exposure"] (VStr "")) in
  if Str.includes sun "full" || Str.includes sun "great" || Str.includes sun "high"
  then Ok (add 15 "Good sun exposure" st)
  else if Str.includes sun "partial" || Str.includes sun "medium"
  then Ok (add 8 "Medium sun exposure" st)
  else if Str.nonempty sun then Ok (add 2 "Low/unknown sun exposure" st)
  else Ok st.

(** Lines 770-775: HOA. *)
Definition scoreLead_hoa (lead : LeadRecord) (st : vars) : result vars :=
  let* hoa := lower (coalesce_or lead ["HOA?"; "hoa"] (VStr "")) in
  if Str.includes hoa "yes" || Str.includes hoa "true"
  then Ok (add (-5) "HOA friction" st)
  else if Str.includes hoa "no" || Str.includes hoa "false"
  then Ok (note "No HOA" st)
  else Ok st.

(** Lines 778-785: annual true-up cost. *)
Definition scoreLead_trueup (lead : LeadRecord) (st : vars) : result vars :=
  let* trueUpRaw :=
    toStr (coalesce_or lead ["Annual true-up cost"; "true_up"; "trueup"] (VStr "")) in
  let* trueUpTxt := lower (VStr trueUpRaw) in
  let trueUpNum := Num.Number (digits_and_dots trueUpRaw) in
  if negb (Num.isNaN trueUpNum) && Num.ge trueUpNum (Num.lit 500)
  then Ok (add 8 "High true-up cost" st)
  else if Str.includes trueUpTxt "yes" || Str.includes trueUpTxt "true"
  then Ok (add 6 "True-up indicated" st)
  else Ok st.

(** Lines 788-791: property type. *)
Definition scoreLead_ptype (lead : LeadRecord) (st : vars) : result vars :=
  let* ptype := lower (coalesce_or lead ["Property type"; "property_type"] (VStr "")) in
  if Str.includes ptype "single" then Ok (add 5 "Single family" st)
  else if Str.includes ptype "mobile" || Str.includes ptype "manufact"
  then Ok (add (-5) "Mobile/manufactured complexity" st)
  else if Str.nonempty ptype then Ok (note "Property type noted" st)
  else Ok st.

(** Lines 794-813: clamp, tiering and the returned object. *)
Definition scoreLead_verdict (rejectReasons : list string) (st : vars)
  : ScoreResult :=
  let score := v_score st in
  let score := if (score <? 0)%Z then 0%Z else score in
  let score := if (100 <? score)%Z then 100%Z else score in
  let '(tier, temp, eligible) :=
    if (70 <=? score)%Z then ("Qualified – Send to Marshall", "Hot", true)
    else if (40 <=? score)%Z then ("Warm – Review Later", "Warm", false)
    else ("Educational Only", "Cold", false) in
  {| score := score;
     tier := tier;
     lead_temperature := temp;
     reject_reasons := rejectReasons;
     score_reasons := Str.join " | " (v_reasons st);
     marshall_eligible := eligible |}.

(** [function scoreLead(lead)], lines 705-814. *)
Definition scoreLead (lead : LeadRecord) : result ScoreResult :=
  let reasons : list string := [] in
  let rejectReasons : list string := [] in
  let* owns := scoreLead_owns lead in
  if negb (isOwner owns) then
    let rejectReasons := push rejectReasons "Not homeowner" in
    Ok {| score := 0;
          tier := "Disqualified";
          lead_temperature := "Cold";
          reject_reasons := rejectReasons;
          score_reasons := "Not homeowner";
          marshall_eligible := false |}
  else
    let reasons := push reasons "Homeowner" in
    let st := {| v_score := 30; v_reasons := reasons |} in
    let* st := scoreLead_bill lead st in
    let* st := scoreLead_roof lead st in
    let* st := scoreLead_sun lead st in
    let* st := scoreLead_hoa lead st in
    let* st := scoreLead_trueup lead st in
    let* st := scoreLead_ptype lead st in
    Ok (scoreLead_verdict rejectReasons st).

End Legacy.

(** ** Sample records *)

Definition gates_off : GateConfig :=
  {| REQUIRE_CA := None; REQUIRE_KERN := None |}.

Definition kern_only : GateConfig :=
  {| REQUIRE_CA := None; REQUIRE_KERN := Some "true" |}.

Definition record (fields : list (string * value)) : LeadRecord :=
  list_to_map fields.

Definition owner_only : LeadRecord := record [("owns", VStr "yes")].

Definition scenario_B : LeadRecord :=
  record [("owns", VStr "yes"); ("Avg monthly bill", VStr "300");
          ("Roof age (years)", VStr "5"); ("Sun exposure", VStr "full sun");
          ("HOA?", VStr "no"); ("Property type", VStr "single family")].

Definition renter_in_LA : LeadRecord :=
  record [("County", VStr "Los Angeles"); ("owns", VStr "no")].

Definition bill_100 : LeadRecord :=
  record [("owns", VStr "yes"); ("bill", VStr "$100"); ("HOA?", VStr "yes")].
Definition bill_300 : LeadRecord := <["bill" := VStr "$300"]> bill_100.

(** ** Vocabulary of the properties *)

(** Well-formed records: every value is a string, a number or a boolean. *)

Definition is_scalar (v : value) : bool :=
  match v with
  | VStr _ | VNum _ | VBool _ => true
  | _ => false
  end.

Definition wf (lead : LeadRecord) : Prop :=
  forall k v, lead !! k = Some v -> is_scalar v = true.

(** A value [toStr] accepts: [undefined], or a scalar. *)
Definition is_plain (v : value) : bool :=
  match v with
  | VUndefined => true
  | _ => is_scalar v
  end.

(** [score += d] together with pushing the reasons [rs], in order. *)
Definition bump (d : Z) (rs : list string) (st : vars) : vars :=
  {| v_score := (v_score st + d)%Z; v_reasons := (v_reasons st ++ rs)%list |}.

(** A block of the scorer that, whatever the variables hold when it starts,
    adds [d] to the score and appends [rs] to the reasons. *)
Definition effect (step : vars -> result vars) (d : Z) (rs : list string) : Prop :=
  forall st, step st = Ok (bump d rs st).

Definition throws (step : vars -> result vars) : Prop :=
  forall st, step st = Throw TypeError.

(** The possible effects of each signal: score step and reasons pushed. *)
Definition bill_outcomes : list (Z * list string) :=
  [(18, ["High bill"]); (10, ["Mid bill"]); (2, ["Low bill"]);
   (4, ["Bill provided"]); (0, ["Bill unknown"])]%Z.
Definition roof_outcomes : list (Z * list string) :=
  [(12, ["Roof <= 10 years"]); (6, ["Roof 10–20 years"]);
   (0, ["Roof > 20 years"]); (12, ["Roof likely good"]); (6, ["Roof maybe"]);
   (0, ["Roof unknown"])]%Z.
Definition sun_outcomes : list (Z * list string) :=
  [(10, ["Good sun exposure"]); (5, ["Medium sun exposure"]);
   (0, ["Low/unknown sun exposure"]); (0, ["Sun exposure unknown"])]%Z.
Definition hoa_outcomes : list (Z * list string) :=
  [(-8, ["HOA friction"]); (4, ["No HOA"]); (-2, ["HOA unknown"])]%Z.
Definition trueup_outcomes : list (Z * list string) :=
  [(6, ["High true-up cost"]); (2, ["True-up cost indicated"]);
   (4, ["True-up indicated"]); (0, [])]%Z.
Definition ptype_outcomes : list (Z * list string) :=
  [(4, ["Single family"]); (-6, ["Mobile/manufactured complexity"]);
   (0, ["Property type noted"]); (0, [])]%Z.

(** A block either throws whatever the variables, or has one of the listed
    effects whatever the variables. *)
Definition outcome_in (step : vars -> result vars)
    (table : list (Z * list string)) : Prop :=
  throws step \/ exists d rs, In (d, rs) table /\ effect step d rs.

(** The variables when the first signal starts: base score 50, and the
    reason pushed on line 207. *)
Definition start : vars := {| v_score := 50; v_reasons := ["Homeowner"] |}.

(** The three ways [scoreLead] returns: rejected by a geo gate, rejected
    as not an owner, or scored by the six signals. *)
Inductive returns (env : GateConfig) (lead : LeadRecord) : ScoreResult -> Prop :=
  | returns_geo rej :
      scoreLead_gates env lead = Ok rej ->
      rej <> [] ->
      returns env lead
        {| score := 0; tier := "Disqualified"; lead_temperature := "Cold";
           reject_reasons := rej; score_reasons := Str.join " | " rej;
           marshall_eligible := false |}
  | returns_not_owner owns :
      scoreLead_gates env lead = Ok [] ->
      scoreLead_owns lead = Ok owns ->
      owns <> "yes" ->
      returns env lead
        {| score := 0; tier := "Disqualified"; lead_temperature := "Cold";
           reject_reasons := ["Not homeowner"]; score_reasons := "Not homeowner";
           marshall_eligible := false |}
  | returns_scored db rb dr rr ds rs dh rh dt rt dp rp :
      scoreLead_gates env lead = Ok [] ->
      scoreLead_owns lead = Ok "yes" ->
      In (db, rb) bill_outcomes -> effect (scoreLead_bill lead) db rb ->
      In (dr, rr) roof_outcomes -> effect (scoreLead_roof lead) dr rr ->
      In (ds, rs) sun_outcomes -> effect (scoreLead_sun lead) ds rs ->
      In (dh, rh) hoa_outcomes -> effect (scoreLead_hoa lead) dh rh ->
      In (dt, rt) trueup_outcomes -> effect (scoreLead_trueup lead) dt rt ->
      In (dp, rp) ptype_outcomes -> effect (scoreLead_ptype lead) dp rp ->
      returns env lead
        (scoreLead_verdict []
           (bump (db + dr + ds + dh + dt + dp)
                 (rb ++ rr ++ rs ++ rh ++ rt ++ rp)%list start)).

(** The conditions of the two geo gates (lines 174 and 177). *)
Definition gate_CA (on : bool) (state : string) : bool :=
  on && Str.nonempty state
  && negb (String.eqb state "CA") && negb (String.eqb state "CALIFORNIA").

Definition gate_Kern (on : bool) (county : string) : bool :=
  on && Str.nonempty county && negb (Str.includes county "kern").

(** What section 3 of the specification asks of a [ScoreResult], field by
    field: the range of the score, the closed sets of labels, reject reasons
    only on a disqualified result, eligibility only in the top tier. *)
Definition well_formed (r : ScoreResult) : Prop :=
  (0 <= score r <= 100)%Z /\
  In (tier r) ["Disqualified"; "Qualified – Send to Marshall";
               "Warm – Review Later"; "Educational Only"] /\
  In (lead_temperature r) ["Hot"; "Warm"; "Cold"] /\
  (reject_reasons r <> [] -> tier r = "Disqualified") /\
  (marshall_eligible r = true -> tier r = "Qualified – Send to Marshall").

(** Records that agree on every key outside [keys]. *)
Definition same_except (keys : list string) (lead1 lead2 : LeadRecord) : Prop :=
  forall k, ~ In k keys -> lead1 !! k = lead2 !! k.

Definition geo_keys : list string := ["State"; "state"; "County"; "county"].

(** Vocabulary for the helpers. *)

(** Every character of [s] satisfies [p]. *)
Fixpoint all_chars (p : ascii -> bool) (s : string) : bool :=
  match s with
  | EmptyString => true
  | String c s' => p c && all_chars p s'
  end.

Fixpoint count_char (c : ascii) (s : string) : nat :=
  match s with
  | EmptyString => 0
  | String c' s' => (if Ascii.eqb c' c then 1 else 0) + count_char c s'
  end.

(** Takes away the backslash in front of each quote. *)
Fixpoint unescape_quotes (s : string) : string :=
  match s with
  | EmptyString => EmptyString
  | String c s' =>
      match s' with
      | String c' s'' =>
          if Ascii.eqb c "\" && Ascii.eqb c' "'" then String "'" (unescape_quotes s'')
          else String c (unescape_quotes s')
      | EmptyString => String c EmptyString
      end
  end.

(** [v] is [undefined] or [null]. *)
Definition nullish (v : value) : bool :=
  match v with
  | VUndefined | VNull => true
  | _ => false
  end.


Definition owns_keys : list string :=
  ["Owns property?"; "owns_property"; "owns"; "own"; "homeowner"].

Definition agree_on (keys : list string) (lead1 lead2 : LeadRecord) : Prop :=
  forall k, In k keys -> lead1 !! k = lead2 !! k.

Definition phone_plain : string := "5551234567".
Definition phone_formatted : string := "+1 (555) 123-4567".

Definition phone_keys : list string :=
  ["phone"; "Phone"; "What is your best phone number"].
Definition email_consent_keys : list string :=
  ["opt_in_email"; "Opt-in email?"; "Email consent checkbox"; "email_consent"].
Definition sms_consent_keys : list string :=
  ["opt_in_sms"; "Opt-in SMS?"; "SMS consent checkbox"; "sms_consent"].
Definition contact_formatted : LeadRecord :=
  record [("Phone", VStr "+1 (555) 123-4567"); ("zip", VNum "93301")].
Definition contact_plain : LeadRecord :=
  <["Phone" := VStr "555.123.4567"]> contact_formatted.
Definition declined_then_yes : LeadRecord :=
  record [("opt_in_email", VBool false); ("email_consent", VStr "yes");
          ("SMS consent checkbox", VStr "On")].
Definition production_with_secret : ServerEnv :=
  {| NODE_ENV := Some "production"; BRAIN_SECRET := Some "s3cret" |}.



(** The characters [normalizeAddress] can return: no upper-case letter, none
    of [.], [,] and [#], and no white space other than the plain space. *)
Definition address_char (c : ascii) : bool :=
  negb (Str.is_upper c)
  && negb (Ascii.eqb c "." || Ascii.eqb c "," || Ascii.eqb c "#")
  && (negb (Str.is_space c) || Ascii.eqb c " ").

(** ** The range on which the text helpers are exact *)

(** A character of the ASCII range. On text made of such characters
    [Str.trim], [Str.toLowerCase] and [Str.toUpperCase] are JavaScript's
    [trim], [toLowerCase] and [toUpperCase]. Outside it they are not:
    JavaScript also trims U+00A0, U+FEFF and the Unicode space separators,
    lower-cases U+212A to "k" and upper-cases U+0131 to "I". *)
Definition is_ascii (c : ascii) : bool := (Str.code c <? 128)%N.

Definition ascii_value (v : value) : bool :=
  match v with
  | VStr s | VNum s => all_chars is_ascii s
  | _ => true
  end.

(** Records whose text is ASCII. *)
Definition ascii_record (lead : LeadRecord) : Prop :=
  forall k v, lead !! k = Some v -> ascii_value v = true.



(** ** The bill as a number *)




(** The variables [upsertLeadToAirtable] requires. *)
Definition airtable_vars : list string :=
  ["AIRTABLE_API_KEY"; "AIRTABLE_BASE_ID"; "AIRTABLE_TABLE_NAME"].

(** Sample inputs for the write to Airtable. *)
Definition airtable_env : ProcessEnv :=
  list_to_map [("AIRTABLE_API_KEY", "key"); ("AIRTABLE_BASE_ID", "app1");
               ("AIRTABLE_TABLE_NAME", "Leads")].
Definition no_table_name : ProcessEnv :=
  list_to_map [("AIRTABLE_API_KEY", "key"); ("AIRTABLE_BASE_ID", "app1")].
Definition sample_meta : Meta :=
  {| trace_id := "t-1"; source_name := "Make/Tally"; source_run_id := "" |}.
Definition sample_scored : ScoreResult :=
  {| score := 0; tier := "Disqualified"; lead_temperature := "Cold";
     reject_reasons := ["Not homeowner"]; score_reasons := "";
     marshall_eligible := false |}.

(** * Properties *)

(** ** Outcomes *)

Lemma bind_Ok {A B} (m : result A) (k : A -> result B) (b : B) :
  bind m k = Ok b -> exists a, m = Ok a /\ k a = Ok b.
Proof. destruct m as [a|e]; simpl; [eauto | discriminate]. Qed.

Lemma result_error_unique (e : error) : e = TypeError.
Proof. by destruct e. Qed.

Ltac inv_bind H :=
  let a := fresh "x" in
  let Ha := fresh "E" in
  apply bind_Ok in H; destruct H as (a & Ha & H).

(** ** Well-formed records: every value is a string, a number or a boolean *)

Lemma wf_empty : wf ∅.
Proof. intros k v H. by rewrite lookup_empty in H. Qed.

Lemma wf_record (fields : list (string * value)) :
  forallb (fun kv => is_scalar kv.2) fields = true -> wf (record fields).
Proof.
  intros Hall k v Hk. unfold record in Hk.
  apply elem_of_list_to_map_2, list_elem_of_In in Hk.
  rewrite forallb_forall in Hall. exact (Hall _ Hk).
Qed.

Lemma ascii_record_record (fields : list (string * value)) :
  forallb (fun kv => ascii_value kv.2) fields = true -> ascii_record (record fields).
Proof.
  intros Hall k v Hk. unfold record in Hk.
  apply elem_of_list_to_map_2, list_elem_of_In in Hk.
  rewrite forallb_forall in Hall. exact (Hall _ Hk).
Qed.


Lemma get_wf lead k : wf lead -> is_plain (get lead k) = true.
Proof.
  intros Hwf. unfold get. destruct (lead !! k) as [v|] eqn:E; simpl; [|done].
  apply Hwf in E. by destruct v.
Qed.

Lemma toStr_plain v : is_plain v = true -> exists s, toStr v = Ok s.
Proof. destruct v; simpl; try discriminate; intros _; eexists; reflexivity. Qed.

Lemma pick_plain lead keys v : pick lead keys = Ok v -> wf lead -> is_plain v = true.
Proof.
  intros Hp Hwf. induction keys as [|k keys IH]; simpl in Hp.
  - by inversion Hp.
  - pose proof (get_wf lead k Hwf) as Hg.
    destruct (get lead k) eqn:E; try discriminate; auto;
      inv_bind Hp; destruct (Str.nonempty _); auto; by inversion Hp.
Qed.

Lemma pick_wf lead keys : wf lead -> exists v, pick lead keys = Ok v.
Proof.
  intros Hwf. induction keys as [|k keys IH]; simpl; [eauto|].
  pose proof (get_wf lead k Hwf) as Hg.
  destruct (get lead k) eqn:E; try discriminate; auto;
    simpl; destruct (Str.nonempty _); eauto.
Qed.

(** [pick] only reads the keys it is given. *)
Lemma pick_ext lead1 lead2 keys :
  (forall k, In k keys -> lead1 !! k = lead2 !! k) ->
  pick lead1 keys = pick lead2 keys.
Proof.
  induction keys as [|k keys IH]; intros Hagree; simpl; [done|].
  unfold get. rewrite (Hagree k) by (by left).
  rewrite IH by (intros; apply Hagree; by right). done.
Qed.

Lemma truthy_VStr s : exists b, truthy (VStr s) = Ok b.
Proof. eexists. reflexivity. Qed.

Lemma yn_range v o :
  yn v = Ok o -> o = "yes" \/ o = "no" \/ o = "unknown".
Proof.
  unfold yn. intros H. inv_bind H.
  repeat match type of H with
         | (if ?c then _ else _) = _ => destruct c
         end; inversion H; auto.
Qed.

(** ** What one signal does to the running variables *)

Lemma add_bump d why st : add d why st = bump d [why] st.
Proof. reflexivity. Qed.

Lemma note_bump why st : note why st = bump 0 [why] st.
Proof. unfold note, bump, push. by rewrite Z.add_0_r. Qed.

Lemma skip_bump st : st = bump 0 [] st.
Proof. destruct st. unfold bump; simpl. by rewrite Z.add_0_r, app_nil_r. Qed.

Lemma bump_bump d1 rs1 d2 rs2 st :
  bump d2 rs2 (bump d1 rs1 st) = bump (d1 + d2) (rs1 ++ rs2)%list st.
Proof. unfold bump; simpl. by rewrite Z.add_assoc, app_assoc. Qed.


Ltac split_ifs :=
  repeat match goal with
         | |- context [if ?c then _ else _] => destruct c
         end.

Ltac solve_outcome :=
  split_ifs; right; do 2 eexists;
  (split; [| intros st;
             first [ rewrite add_bump; reflexivity
                   | rewrite note_bump; reflexivity
                   | rewrite (skip_bump st) at 1; reflexivity ]]);
  simpl; tauto.

Ltac open_field lead keys :=
  destruct (pick lead keys) as [picked|e];
  [ simpl | left; intros st; by rewrite (result_error_unique e) ].

Lemma bill_outcome lead : outcome_in (scoreLead_bill lead) bill_outcomes.
Proof.
  unfold outcome_in, effect, throws, scoreLead_bill.
  open_field lead ["Avg monthly bill"; "avg_monthly_bill"; "bill"].
  destruct (toStr picked) as [billRaw|e]; simpl;
    [| left; intros st; by rewrite (result_error_unique e)].
  solve_outcome.
Qed.

Lemma roof_outcome lead : outcome_in (scoreLead_roof lead) roof_outcomes.
Proof.
  unfold outcome_in, effect, throws, scoreLead_roof.
  open_field lead ["Roof age (years)"; "roof_age_years"; "roof_age"].
  destruct (toStr picked) as [roofAgeRaw|e]; simpl;
    [| left; intros st; by rewrite (result_error_unique e)].
  solve_outcome.
Qed.

Lemma sun_outcome lead : outcome_in (scoreLead_sun lead) sun_outcomes.
Proof.
  unfold outcome_in, effect, throws, scoreLead_sun.
  open_field lead ["Sun exposure"; "sun_exposure"].
  destruct (lower picked) as [sun|e]; simpl;
    [| left; intros st; by rewrite (result_error_unique e)].
  solve_outcome.
Qed.

Lemma hoa_outcome lead : outcome_in (scoreLead_hoa lead) hoa_outcomes.
Proof.
  unfold outcome_in, effect, throws, scoreLead_hoa.
  open_field lead ["HOA?"; "hoa"; "has_hoa"].
  destruct (yn picked) as [hoa|e]; simpl;
    [| left; intros st; by rewrite (result_error_unique e)].
  solve_outcome.
Qed.

Lemma trueup_outcome lead : outcome_in (scoreLead_trueup lead) trueup_outcomes.
Proof.
  unfold outcome_in, effect, throws, scoreLead_trueup.
  open_field lead ["Annual true-up cost"; "true_up"; "trueup"].
  destruct (toStr picked) as [trueUpRaw|e]; simpl;
    [| left; intros st; by rewrite (result_error_unique e)].
  solve_outcome.
Qed.

Lemma ptype_outcome lead : outcome_in (scoreLead_ptype lead) ptype_outcomes.
Proof.
  unfold outcome_in, effect, throws, scoreLead_ptype.
  open_field lead ["Property type"; "property_type"].
  destruct (lower picked) as [ptype|e]; simpl;
    [| left; intros st; by rewrite (result_error_unique e)].
  solve_outcome.
Qed.

(** On a well-formed record no block throws. *)

Lemma lower_plain v : is_plain v = true -> exists s, lower v = Ok s.
Proof.
  intros H. destruct (toStr_plain v H) as [s Hs].
  unfold lower. rewrite Hs. simpl. eauto.
Qed.

Lemma yn_plain v : is_plain v = true -> exists o, yn v = Ok o.
Proof.
  intros H. destruct (lower_plain v H) as [s Hs].
  unfold yn. rewrite Hs. simpl. split_ifs; eauto.
Qed.

Ltac with_field lead keys Hwf :=
  let v := fresh "picked" in
  let Hv := fresh "Hpick" in
  destruct (pick_wf lead keys Hwf) as [v Hv];
  pose proof (pick_plain _ _ _ Hv Hwf);
  rewrite Hv; simpl.

Lemma bill_total lead st : wf lead -> exists st', scoreLead_bill lead st = Ok st'.
Proof.
  intros Hwf. unfold scoreLead_bill.
  with_field lead ["Avg monthly bill"; "avg_monthly_bill"; "bill"] Hwf.
  destruct (toStr_plain picked) as [s ->]; [done|]. simpl. split_ifs; eauto.
Qed.

Lemma roof_total lead st : wf lead -> exists st', scoreLead_roof lead st = Ok st'.
Proof.
  intros Hwf. unfold scoreLead_roof.
  with_field lead ["Roof age (years)"; "roof_age_years"; "roof_age"] Hwf.
  destruct (toStr_plain picked) as [s ->]; [done|]. simpl. split_ifs; eauto.
Qed.

Lemma sun_total lead st : wf lead -> exists st', scoreLead_sun lead st = Ok st'.
Proof.
  intros Hwf. unfold scoreLead_sun.
  with_field lead ["Sun exposure"; "sun_exposure"] Hwf.
  destruct (lower_plain picked) as [s ->]; [done|]. simpl. split_ifs; eauto.
Qed.

Lemma hoa_total lead st : wf lead -> exists st', scoreLead_hoa lead st = Ok st'.
Proof.
  intros Hwf. unfold scoreLead_hoa.
  with_field lead ["HOA?"; "hoa"; "has_hoa"] Hwf.
  destruct (yn_plain picked) as [s ->]; [done|]. simpl. split_ifs; eauto.
Qed.

Lemma trueup_total lead st : wf lead -> exists st', scoreLead_trueup lead st = Ok st'.
Proof.
  intros Hwf. unfold scoreLead_trueup.
  with_field lead ["Annual true-up cost"; "true_up"; "trueup"] Hwf.
  destruct (toStr_plain picked) as [s ->]; [done|]. simpl. split_ifs; eauto.
Qed.

Lemma ptype_total lead st : wf lead -> exists st', scoreLead_ptype lead st = Ok st'.
Proof.
  intros Hwf. unfold scoreLead_ptype.
  with_field lead ["Property type"; "property_type"] Hwf.
  destruct (lower_plain picked) as [s ->]; [done|]. simpl. split_ifs; eauto.
Qed.

Lemma state_total lead : wf lead -> exists s, scoreLead_state lead = Ok s.
Proof.
  intros Hwf. unfold scoreLead_state.
  with_field lead ["State"; "state"] Hwf.
  destruct (toStr_plain picked) as [s ->]; [done|]. simpl. eauto.
Qed.

Lemma county_total lead : wf lead -> exists s, scoreLead_county lead = Ok s.
Proof.
  intros Hwf. unfold scoreLead_county.
  with_field lead ["County"; "county"] Hwf.
  by apply lower_plain.
Qed.

Lemma owns_total lead : wf lead -> exists o, scoreLead_owns lead = Ok o.
Proof.
  intros Hwf. unfold scoreLead_owns.
  with_field lead ["Owns property?"; "owns_property"; "owns"; "own"; "homeowner"] Hwf.
  by apply yn_plain.
Qed.

Lemma gates_total env lead :
  wf lead -> exists rej, scoreLead_gates env lead = Ok rej.
Proof.
  intros Hwf. unfold scoreLead_gates.
  destruct (truthy_VStr (default "false" (REQUIRE_CA env))) as [ca Hca].
  destruct (truthy_VStr (default "false" (REQUIRE_KERN env))) as [kern Hkern].
  unfold requireCA, requireKern. rewrite Hca, Hkern. simpl.
  destruct (state_total lead Hwf) as [s ->].
  destruct (county_total lead Hwf) as [c ->]. simpl. eauto.
Qed.

(** ** The three ways [scoreLead] returns *)

Lemma outcome_at step table st st' :
  outcome_in step table -> step st = Ok st' ->
  exists d rs, In (d, rs) table /\ effect step d rs /\ st' = bump d rs st.
Proof.
  intros [Hthrow | (d & rs & Hin & Heff)] Hrun.
  - by rewrite Hthrow in Hrun.
  - rewrite Heff in Hrun. inversion Hrun. eauto.
Qed.

Lemma scoreLead_returns env lead r :
  scoreLead env lead = Ok r -> returns env lead r.
Proof.
  unfold scoreLead. intros H. inv_bind H. rename x into rej.
  destruct rej as [|why rej]; simpl in H.
  - inv_bind H. rename x into owns.
    destruct (String.eqb owns "yes") eqn:Eowns; simpl in H.
    + apply String.eqb_eq in Eowns. subst owns.
      inv_bind H. inv_bind H. inv_bind H. inv_bind H. inv_bind H. inv_bind H.
      destruct (outcome_at _ _ _ _ (bill_outcome lead) E1) as (db & rb & ? & ? & ->).
      destruct (outcome_at _ _ _ _ (roof_outcome lead) E2) as (dr & rr & ? & ? & ->).
      destruct (outcome_at _ _ _ _ (sun_outcome lead) E3) as (ds & rs & ? & ? & ->).
      destruct (outcome_at _ _ _ _ (hoa_outcome lead) E4) as (dh & rh & ? & ? & ->).
      destruct (outcome_at _ _ _ _ (trueup_outcome lead) E5) as (dt & rt & ? & ? & ->).
      destruct (outcome_at _ _ _ _ (ptype_outcome lead) E6) as (dp & rp & ? & ? & ->).
      inversion H; subst r. rewrite !bump_bump.
      replace (db + (dr + (ds + (dh + (dt + dp)))))%Z
        with (db + dr + ds + dh + dt + dp)%Z by lia.
      by apply returns_scored.
    + apply String.eqb_neq in Eowns. inversion H; subst r.
      by eapply returns_not_owner.
  - inversion H; subst r. by apply returns_geo.
Qed.

Lemma scoreLead_total env lead : wf lead -> exists r, scoreLead env lead = Ok r.
Proof.
  intros Hwf. unfold scoreLead.
  destruct (gates_total env lead Hwf) as [rej ->]. simpl.
  destruct (0 <? length rej)%nat; [eauto|].
  destruct (owns_total lead Hwf) as [owns ->]. simpl.
  destruct (negb (String.eqb owns "yes")); [eauto|].
  destruct (bill_total lead {| v_score := 50; v_reasons := push [] "Homeowner" |} Hwf)
    as [st1 ->]; simpl.
  destruct (roof_total lead st1 Hwf) as [st2 ->]; simpl.
  destruct (sun_total lead st2 Hwf) as [st3 ->]; simpl.
  destruct (hoa_total lead st3 Hwf) as [st4 ->]; simpl.
  destruct (trueup_total lead st4 Hwf) as [st5 ->]; simpl.
  destruct (ptype_total lead st5 Hwf) as [st6 ->]; simpl.
  eauto.
Qed.

(** ** Bounds *)

Ltac table_cases H :=
  simpl in H;
  repeat match type of H with
         | _ \/ _ => destruct H as [H|H]
         end;
  try contradiction; inversion H; subst; clear H.

Lemma bill_bounds d rs : In (d, rs) bill_outcomes -> (0 <= d <= 18)%Z.
Proof. intros H. table_cases H; lia. Qed.
Lemma roof_bounds d rs : In (d, rs) roof_outcomes -> (0 <= d <= 12)%Z.
Proof. intros H. table_cases H; lia. Qed.
Lemma sun_bounds d rs : In (d, rs) sun_outcomes -> (0 <= d <= 10)%Z.
Proof. intros H. table_cases H; lia. Qed.
Lemma hoa_bounds d rs : In (d, rs) hoa_outcomes -> (-8 <= d <= 4)%Z.
Proof. intros H. table_cases H; lia. Qed.
Lemma trueup_bounds d rs : In (d, rs) trueup_outcomes -> (0 <= d <= 6)%Z.
Proof. intros H. table_cases H; lia. Qed.
Lemma ptype_bounds d rs : In (d, rs) ptype_outcomes -> (-6 <= d <= 4)%Z.
Proof. intros H. table_cases H; lia. Qed.

Lemma clamp_bounds n lo hi : (lo <= hi)%Z -> (lo <= clamp n lo hi <= hi)%Z.
Proof. unfold clamp. lia. Qed.


Lemma clamp_above n lo hi b :
  (b <= n)%Z -> (b <= hi)%Z -> (b <= clamp n lo hi)%Z.
Proof. unfold clamp. lia. Qed.

Lemma verdict_score rej st :
  score (scoreLead_verdict rej st) = clamp (Math_round (v_score st)) 0 100.
Proof. unfold scoreLead_verdict. split_ifs; reflexivity. Qed.

Lemma verdict_reject_reasons rej st :
  reject_reasons (scoreLead_verdict rej st) = rej.
Proof. unfold scoreLead_verdict. split_ifs; reflexivity. Qed.


(** The tier, the temperature and the eligibility flag, by score band. *)
Lemma verdict_bands rej st :
  let r := scoreLead_verdict rej st in
  (75 <= score r /\ tier r = "Qualified – Send to Marshall"
     /\ lead_temperature r = "Hot" /\ marshall_eligible r = true)%Z
  \/ (55 <= score r < 75 /\ tier r = "Warm – Review Later"
     /\ lead_temperature r = "Warm" /\ marshall_eligible r = false)%Z
  \/ (score r < 55 /\ tier r = "Educational Only"
     /\ lead_temperature r = "Cold" /\ marshall_eligible r = false)%Z.
Proof.
  unfold scoreLead_verdict.
  destruct (75 <=? _)%Z eqn:E1; [left; simpl; repeat split; lia|].
  destruct (55 <=? _)%Z eqn:E2; [right; left|right; right]; simpl; repeat split; lia.
Qed.

(** A record that reaches the signals scores between 36 and 100. *)
Lemma scored_range db rb dr rr ds rs dh rh dt rt dp rp :
  In (db, rb) bill_outcomes -> In (dr, rr) roof_outcomes ->
  In (ds, rs) sun_outcomes -> In (dh, rh) hoa_outcomes ->
  In (dt, rt) trueup_outcomes -> In (dp, rp) ptype_outcomes ->
  (36 <= 50 + (db + dr + ds + dh + dt + dp) <= 104)%Z.
Proof.
  intros Hb Hr Hs Hh Ht Hp.
  apply bill_bounds in Hb. apply roof_bounds in Hr. apply sun_bounds in Hs.
  apply hoa_bounds in Hh. apply trueup_bounds in Ht. apply ptype_bounds in Hp.
  lia.
Qed.

(** ** The geo gates *)


Lemma nonempty_inv s : Str.nonempty s = true -> s <> "".
Proof.
  unfold Str.nonempty. intros H ->. discriminate.
Qed.

Lemma gates_inv env lead rej :
  scoreLead_gates env lead = Ok rej ->
  exists ca kern state county,
    requireCA env = Ok ca /\ requireKern env = Ok kern /\
    scoreLead_state lead = Ok state /\ scoreLead_county lead = Ok county /\
    rej = ((if gate_CA ca state then ["Outside California"] else []) ++
           (if gate_Kern kern county then ["Outside Kern County"] else []))%list.
Proof.
  unfold scoreLead_gates. intros H.
  inv_bind H. inv_bind H. inv_bind H. inv_bind H.
  exists x, x0, x1, x2. repeat (split; [done|]).
  inversion H. unfold gate_CA, gate_Kern, push.
  by destruct (x && _ && _ && _), (x0 && _ && _).
Qed.


(** ** The shape of a result *)

Lemma returns_well_formed env lead r : returns env lead r -> well_formed r.
Proof.
  intros H. unfold well_formed. destruct H; simpl.
  - repeat split; auto; try lia; discriminate.
  - repeat split; auto; try lia; discriminate.
  - rewrite verdict_score, verdict_reject_reasons.
    split; [apply clamp_bounds; lia|].
    destruct (verdict_bands [] (bump (db + dr + ds + dh + dt + dp)
      (rb ++ rr ++ rs ++ rh ++ rt ++ rp)%list start)) as [B|[B|B]];
      destruct B as (_ & -> & -> & ->); simpl;
      repeat split; auto; try tauto; intros; congruence.
Qed.

(** A record that reaches the signals gets a score of at least 36. *)
Lemma returns_scored_floor env lead r :
  returns env lead r -> reject_reasons r = [] -> (36 <= score r <= 100)%Z.
Proof.
  intros H Hrej.
  destruct H as [| | db rb dr rr ds rs dh rh dt rt dp rp
                     _ _ Hb _ Hr _ Hs _ Hh _ Ht _ Hp _]; simpl in *.
  - congruence.
  - discriminate.
  - rewrite verdict_score. unfold Math_round, bump, start; simpl.
    pose proof (scored_range _ _ _ _ _ _ _ _ _ _ _ _ Hb Hr Hs Hh Ht Hp).
    split; [apply clamp_above|apply clamp_bounds]; lia.
Qed.

(** * The scoring result *)

(** C4. For every lead record and every gate configuration the scorer
    returns, and the score it returns lies between 0 and 100. The score is
    an integer by construction; it is rounded, then clamped. *)
Theorem score_between_0_and_100 (env : GateConfig) (lead : LeadRecord) :
  wf lead ->
  exists r, scoreLead env lead = Ok r /\ (0 <= score r <= 100)%Z.
Proof.
  intros Hwf. destruct (scoreLead_total env lead Hwf) as [r Hr].
  exists r. split; [done|].
  apply scoreLead_returns, returns_well_formed in Hr. apply Hr.
Qed.

Lemma score_between_0_and_100_witness :
  wf scenario_B /\
  exists r, scoreLead kern_only scenario_B = Ok r /\ (0 <= score r <= 100)%Z.
Proof.
  split; [by apply wf_record|].
  apply (score_between_0_and_100 kern_only scenario_B). by apply wf_record.
Defined.

(** C10. A record that passes the geo gates and the ownership gate scores
    at least 36 (base 50, at most 8 off for the HOA and 6 off for the
    property type); so does every result without reject reasons, and a score
    of 0 is only returned on a disqualified result. *)
Theorem passing_record_scores_at_least_36 (env : GateConfig) (lead : LeadRecord) :
  wf lead ->
  exists r, scoreLead env lead = Ok r /\
    (scoreLead_gates env lead = Ok [] -> scoreLead_owns lead = Ok "yes" ->
       (36 <= score r <= 100)%Z) /\
    (reject_reasons r = [] -> (36 <= score r <= 100)%Z) /\
    (score r = 0%Z -> tier r = "Disqualified" /\ reject_reasons r <> []).
Proof.
  intros Hwf. destruct (scoreLead_total env lead Hwf) as [r Hr].
  exists r. split; [done|]. apply scoreLead_returns in Hr.
  pose proof (returns_scored_floor env lead r Hr) as Hfloor.
  split; [|split; [done|]].
  - intros Hg Ho. apply Hfloor. destruct Hr; simpl.
    + congruence.
    + congruence.
    + apply verdict_reject_reasons.
  - intros Hzero. destruct Hr; simpl in *.
    + done.
    + split; [done | discriminate].
    + rewrite verdict_reject_reasons in Hfloor. specialize (Hfloor eq_refl). lia.
Qed.

Lemma passing_record_scores_at_least_36_witness :
  wf owner_only /\
  exists r, scoreLead gates_off owner_only = Ok r /\
    (scoreLead_gates gates_off owner_only = Ok [] ->
     scoreLead_owns owner_only = Ok "yes" -> (36 <= score r <= 100)%Z) /\
    (reject_reasons r = [] -> (36 <= score r <= 100)%Z) /\
    (score r = 0%Z -> tier r = "Disqualified" /\ reject_reasons r <> []).
Proof.
  split; [by apply wf_record|].
  apply (passing_record_scores_at_least_36 gates_off owner_only).
  by apply wf_record.
Defined.

(** C1, as the code has it. Reject reasons are present exactly when the
    score is 0, and exactly when the tier is "Disqualified"; a disqualified
    result is never eligible. The converse fails: the two tiers below the
    top one are not eligible either. *)
Theorem disqualification_equivalences (env : GateConfig) (lead : LeadRecord) :
  wf lead ->
  exists r, scoreLead env lead = Ok r /\
    (reject_reasons r <> [] <-> score r = 0%Z) /\
    (score r = 0%Z <-> tier r = "Disqualified") /\
    (tier r = "Disqualified" -> marshall_eligible r = false).
Proof.
  intros Hwf. destruct (scoreLead_total env lead Hwf) as [r Hr].
  exists r. split; [done|]. apply scoreLead_returns in Hr.
  pose proof (returns_scored_floor env lead r Hr) as Hfloor.
  destruct Hr as [rej Hg Hne | owns Hg Ho Hne | ]; simpl in *.
  - repeat split; auto.
  - repeat split; auto; discriminate.
  - rewrite verdict_reject_reasons in *. specialize (Hfloor eq_refl).
    set (st := bump _ _ _) in *.
    destruct (verdict_bands [] st) as [B|[B|B]];
      destruct B as (_ & Ht & _ & He); rewrite Ht;
      repeat split; intros; try congruence; lia.
Qed.

Lemma disqualification_equivalences_witness :
  wf renter_in_LA /\
  exists r, scoreLead kern_only renter_in_LA = Ok r /\
    (reject_reasons r <> [] <-> score r = 0%Z) /\
    (score r = 0%Z <-> tier r = "Disqualified") /\
    (tier r = "Disqualified" -> marshall_eligible r = false).
Proof.
  split; [by apply wf_record|].
  apply (disqualification_equivalences kern_only renter_in_LA).
  by apply wf_record.
Defined.

(** C1 as stated fails on the record [{owns: "yes"}]: it is not eligible
    (score 48, tier "Educational Only") although it has no reject reason, a
    non-zero score and a tier other than "Disqualified". *)
Lemma not_eligible_yet_not_disqualified :
  exists r, scoreLead gates_off owner_only = Ok r /\
    marshall_eligible r = false /\ reject_reasons r = [] /\
    score r = 48%Z /\ tier r = "Educational Only" /\
    ~ ((reject_reasons r <> [] <-> score r = 0%Z) /\
       (score r = 0%Z <-> tier r = "Disqualified") /\
       (tier r = "Disqualified" <-> marshall_eligible r = false)).
Proof.
  eexists. split; [vm_compute; reflexivity|]. simpl.
  repeat split. intros (_ & _ & _ & H). by specialize (H eq_refl).
Qed.

(** C9. On a record whose values are strings, numbers or booleans the
    scorer does not throw and returns a well-formed result; the empty record
    resolves ownership to "unknown" and is disqualified as "Not homeowner",
    whatever the gates. *)
Theorem scoreLead_never_throws (env : GateConfig) (lead : LeadRecord) :
  wf lead ->
  (exists r, scoreLead env lead = Ok r /\ well_formed r) /\
  scoreLead_owns ∅ = Ok "unknown" /\
  scoreLead env ∅ =
    Ok {| score := 0; tier := "Disqualified"; lead_temperature := "Cold";
          reject_reasons := ["Not homeowner"]; score_reasons := "Not homeowner";
          marshall_eligible := false |}.
Proof.
  intros Hwf. split; [|split].
  - destruct (scoreLead_total env lead Hwf) as [r Hr]. exists r. split; [done|].
    by apply scoreLead_returns, returns_well_formed in Hr.
  - reflexivity.
  - unfold scoreLead, scoreLead_gates, requireCA, requireKern.
    destruct (truthy_VStr (default "false" (REQUIRE_CA env))) as [ca ->].
    destruct (truthy_VStr (default "false" (REQUIRE_KERN env))) as [kern ->].
    simpl. by destruct ca, kern.
Qed.

Lemma scoreLead_never_throws_witness :
  wf (record [("owns", VBool true); ("bill", VNum "300"); ("hoa", VStr "No")]) /\
  (exists r,
     scoreLead gates_off
       (record [("owns", VBool true); ("bill", VNum "300"); ("hoa", VStr "No")])
     = Ok r /\ well_formed r) /\
  scoreLead_owns ∅ = Ok "unknown" /\
  scoreLead gates_off ∅ =
    Ok {| score := 0; tier := "Disqualified"; lead_temperature := "Cold";
          reject_reasons := ["Not homeowner"]; score_reasons := "Not homeowner";
          marshall_eligible := false |}.
Proof.
  split; [by apply wf_record|].
  apply (scoreLead_never_throws gates_off). by apply wf_record.
Defined.

(** Outside the well-formed records the scorer can throw: an object that
    carries its own [toString] entry cannot be turned into text. *)
Example scoreLead_throws_on_object :
  scoreLead gates_off (record [("owns", VObj ["toString"])]) = Throw TypeError.
Proof. reflexivity. Qed.












(** C6. With both geo gates disabled, scenario B scores 50 + 18 (bill)
    + 12 (roof) + 10 (sun) + 4 (HOA) + 4 (property type) = 98, in the top
    tier, "Hot" and eligible. *)
Theorem scenario_B_scores_98 (env : GateConfig) :
  requireCA env = Ok false ->
  requireKern env = Ok false ->
  effect (scoreLead_bill scenario_B) 18 ["High bill"] /\
  effect (scoreLead_roof scenario_B) 12 ["Roof <= 10 years"] /\
  effect (scoreLead_sun scenario_B) 10 ["Good sun exposure"] /\
  effect (scoreLead_hoa scenario_B) 4 ["No HOA"] /\
  effect (scoreLead_trueup scenario_B) 0 [] /\
  effect (scoreLead_ptype scenario_B) 4 ["Single family"] /\
  scoreLead env scenario_B =
    Ok {| score := 98;
          tier := "Qualified – Send to Marshall";
          lead_temperature := "Hot";
          reject_reasons := [];
          score_reasons :=
            "Homeowner | High bill | Roof <= 10 years | Good sun exposure | No HOA | Single family";
          marshall_eligible := true |}.
Proof.
  intros Hca Hkern.
  split; [intros st; reflexivity|].
  split; [intros st; reflexivity|].
  split; [intros st; reflexivity|].
  split; [intros st; reflexivity|].
  split; [intros st; by rewrite <- (skip_bump st)|].
  split; [intros st; reflexivity|].
  unfold scoreLead.
  assert (scoreLead_gates env scenario_B = Ok []) as ->.
  { unfold scoreLead_gates. rewrite Hca, Hkern. reflexivity. }
  reflexivity.
Qed.

Lemma scenario_B_scores_98_witness :
  requireCA gates_off = Ok false /\ requireKern gates_off = Ok false /\
  scoreLead gates_off scenario_B =
    Ok {| score := 98;
          tier := "Qualified – Send to Marshall";
          lead_temperature := "Hot";
          reject_reasons := [];
          score_reasons :=
            "Homeowner | High bill | Roof <= 10 years | Good sun exposure | No HOA | Single family";
          marshall_eligible := true |}.
Proof.
  split; [reflexivity|]. split; [reflexivity|].
  exact (proj2 (proj2 (proj2 (proj2 (proj2 (proj2
    (scenario_B_scores_98 gates_off eq_refl eq_refl))))))).
Defined.

(** ** Comparisons with the thresholds of the bill signal *)








(** ** Records that differ on a few keys only *)

Lemma Array_includes_In l s : Array_includes l s = true <-> In s l.
Proof.
  unfold Array_includes. rewrite existsb_exists. split.
  - intros (x & Hin & Heq). apply String.eqb_eq in Heq. by subst.
  - intros Hin. exists s. split; [done | apply String.eqb_refl].
Qed.


Section SameExcept.
Variables (keys : list string) (lead1 lead2 : LeadRecord).
Hypothesis Hsame : same_except keys lead1 lead2.










End SameExcept.

Lemma same_except_insert keys (lead : LeadRecord) k v :
  In k keys -> same_except keys lead (<[k := v]> lead).
Proof.
  intros Hk k' Hk'. rewrite lookup_insert_ne; [done|]. by intros ->.
Qed.

Lemma wf_insert (lead : LeadRecord) k v :
  wf lead -> is_scalar v = true -> wf (<[k := v]> lead).
Proof.
  intros Hwf Hv k' v'. rewrite lookup_insert. case_decide.
  - intros [= <-]. done.
  - apply Hwf.
Qed.









(** * The helpers *)

(** ** Trimming and case *)

Lemma trimStart_clean s :
  match Str.trimStart s with
  | String c _ => Str.is_space c = false
  | EmptyString => True
  end.
Proof.
  induction s as [|c s IH]; simpl; [done|].
  destruct (Str.is_space c) eqn:E; [done|]. exact E.
Qed.

Lemma trimStart_id s :
  match s with
  | String c _ => Str.is_space c = false
  | EmptyString => True
  end -> Str.trimStart s = s.
Proof. destruct s as [|c s]; simpl; [done|]. by intros ->. Qed.

Lemma trimEnd_clean s :
  match s with
  | String c _ => Str.is_space c = false
  | EmptyString => True
  end ->
  match Str.trimEnd s with
  | String c _ => Str.is_space c = false
  | EmptyString => True
  end.
Proof.
  destruct s as [|c s]; simpl; [done|]. intros Hc.
  destruct (Str.trimEnd s); [by rewrite Hc | done].
Qed.

Lemma trimEnd_idem s : Str.trimEnd (Str.trimEnd s) = Str.trimEnd s.
Proof.
  induction s as [|c s IH]; simpl; [done|].
  destruct (Str.trimEnd s) as [|c' t] eqn:E.
  - destruct (Str.is_space c) eqn:Ec; simpl; [done | by rewrite Ec].
  - simpl. simpl in IH. by rewrite IH.
Qed.

Lemma trim_idem s : Str.trim (Str.trim s) = Str.trim s.
Proof.
  unfold Str.trim.
  rewrite (trimStart_id (Str.trimEnd (Str.trimStart s))).
  - apply trimEnd_idem.
  - apply trimEnd_clean, trimStart_clean.
Qed.

Lemma lower_char_space c : Str.is_space (Str.lower_char c) = Str.is_space c.
Proof. by destruct c as [[] [] [] [] [] [] [] []]. Qed.

Lemma lower_char_idem c : Str.lower_char (Str.lower_char c) = Str.lower_char c.
Proof. by destruct c as [[] [] [] [] [] [] [] []]. Qed.

Lemma toLowerCase_idem s :
  Str.toLowerCase (Str.toLowerCase s) = Str.toLowerCase s.
Proof.
  unfold Str.toLowerCase. induction s as [|c s IH]; simpl; [done|].
  by rewrite lower_char_idem, IH.
Qed.

Lemma trimStart_toLowerCase s :
  Str.trimStart (Str.toLowerCase s) = Str.toLowerCase (Str.trimStart s).
Proof.
  unfold Str.toLowerCase. induction s as [|c s IH]; simpl; [done|].
  rewrite lower_char_space. by destruct (Str.is_space c).
Qed.

Lemma trimEnd_toLowerCase s :
  Str.trimEnd (Str.toLowerCase s) = Str.toLowerCase (Str.trimEnd s).
Proof.
  unfold Str.toLowerCase. induction s as [|c s IH]; simpl; [done|].
  rewrite IH. destruct (Str.trimEnd s); simpl; [|done].
  rewrite lower_char_space. by destruct (Str.is_space c).
Qed.

Lemma trim_toLowerCase s :
  Str.trim (Str.toLowerCase s) = Str.toLowerCase (Str.trim s).
Proof. unfold Str.trim. by rewrite trimStart_toLowerCase, trimEnd_toLowerCase. Qed.

(** X2. Normalising twice changes nothing: the text [toStr] returns is
    returned as it is by [toStr], and the text [lower] returns is returned
    as it is by [toStr] and by [lower]. *)
Theorem normalised_text_is_stable (v : value) (s : string) :
  (toStr v = Ok s -> toStr (VStr s) = Ok s) /\
  (lower v = Ok s -> toStr (VStr s) = Ok s /\ lower (VStr s) = Ok s).
Proof.
  assert (Hstr : forall w t, toStr w = Ok t -> Str.trim t = t).
  { intros w t H. unfold toStr in H. inv_bind H. inversion H. apply trim_idem. }
  split.
  - intros H. unfold toStr. simpl. by rewrite (Hstr _ _ H).
  - intros H. unfold lower in H. inv_bind H. inversion H; subst s.
    pose proof (Hstr _ _ E) as Ht.
    assert (Str.trim (Str.toLowerCase x) = Str.toLowerCase x) as Hl
      by (by rewrite trim_toLowerCase, Ht).
    unfold lower, toStr. simpl. rewrite Hl. split; [done|].
    by rewrite toLowerCase_idem.
Qed.

Lemma normalised_text_is_stable_witness :
  toStr (VStr "  Kern County ") = Ok "Kern County" /\
  toStr (VStr "Kern County") = Ok "Kern County".
Proof.
  split; [reflexivity|].
  exact (proj1 (normalised_text_is_stable (VStr "  Kern County ") "Kern County")
           eq_refl).
Defined.

(** ** Field resolution *)



(** ** Yes/no words *)

(** X3. [truthy] and [yn] accept the same words: [truthy(v)] is [true]
    exactly when [yn(v)] is "yes", and one throws exactly when the other
    does. *)
Theorem truthy_iff_yn_yes (v : value) :
  (truthy v = Ok true <-> yn v = Ok "yes") /\
  (truthy v = Throw TypeError <-> yn v = Throw TypeError).
Proof.
  unfold truthy, yn. destruct (lower v) as [s|e]; simpl.
  - split;
      [|split; intros H; [discriminate H | revert H; split_ifs; discriminate]].
    destruct (String.eqb s "yes"), (String.eqb s "y"), (String.eqb s "true"),
      (String.eqb s "1"), (String.eqb s "checked"), (String.eqb s "on");
      simpl; split; intros H; try done; try discriminate H;
      revert H; split_ifs; discriminate.
  - destruct e. split; split; done.
Qed.

(** * More on the scoring result *)

(** X4. On every result the tier, the temperature and the eligibility flag
    follow the score: 75 and above is "Qualified – Send to Marshall", "Hot"
    and eligible; 55 to 74 is "Warm – Review Later" and "Warm"; 1 to 54 is
    "Educational Only"; "Cold" is every score below 55, disqualified results
    included. *)
Theorem tier_follows_score (env : GateConfig) (lead : LeadRecord) (r : ScoreResult) :
  scoreLead env lead = Ok r ->
  ((75 <= score r)%Z <-> tier r = "Qualified – Send to Marshall") /\
  (tier r = "Qualified – Send to Marshall" <-> lead_temperature r = "Hot") /\
  (lead_temperature r = "Hot" <-> marshall_eligible r = true) /\
  ((55 <= score r < 75)%Z <-> tier r = "Warm – Review Later") /\
  (tier r = "Warm – Review Later" <-> lead_temperature r = "Warm") /\
  ((0 < score r < 55)%Z <-> tier r = "Educational Only") /\
  ((score r < 55)%Z <-> lead_temperature r = "Cold").
Proof.
  intros Hr. apply scoreLead_returns in Hr.
  pose proof (returns_scored_floor env lead r Hr) as Hfloor.
  destruct Hr as [rej Hg Hne | owns Hg Ho Hne | ]; simpl in *.
  - repeat split; intros; try lia; try discriminate.
  - repeat split; intros; try lia; try discriminate.
  - rewrite verdict_reject_reasons in Hfloor. specialize (Hfloor eq_refl).
    set (st := bump _ _ _) in *.
    destruct (verdict_bands [] st) as [B|[B|B]];
      destruct B as (Hs & Ht & Hc & He); rewrite Ht, Hc, He;
      repeat split; intros; try lia; try discriminate.
Qed.

Lemma tier_follows_score_witness :
  scoreLead gates_off scenario_B =
    Ok {| score := 98; tier := "Qualified – Send to Marshall";
          lead_temperature := "Hot"; reject_reasons := [];
          score_reasons :=
            "Homeowner | High bill | Roof <= 10 years | Good sun exposure | No HOA | Single family";
          marshall_eligible := true |} /\
  ((75 <= 98)%Z <-> "Qualified – Send to Marshall" = "Qualified – Send to Marshall").
Proof.
  split; [reflexivity|].
  exact (proj1 (tier_follows_score gates_off scenario_B _ eq_refl)).
Defined.

Lemma gates_range env lead rej :
  scoreLead_gates env lead = Ok rej ->
  In rej [[]; ["Outside California"]; ["Outside Kern County"];
          ["Outside California"; "Outside Kern County"]].
Proof.
  intros H. apply gates_inv in H as (ca & kern & st & co & _ & _ & _ & _ & ->).
  destruct (gate_CA ca st), (gate_Kern kern co); simpl; auto.
Qed.

(** X5. A disqualified result is "Cold", its [score_reasons] is its reject
    reasons joined by " | ", and its reject reasons are one of four lists:
    the California reason, the Kern reason, both in that order, or "Not
    homeowner" alone. *)
Theorem disqualified_result_shape
    (env : GateConfig) (lead : LeadRecord) (r : ScoreResult) :
  scoreLead env lead = Ok r ->
  tier r = "Disqualified" ->
  lead_temperature r = "Cold" /\
  score_reasons r = Str.join " | " (reject_reasons r) /\
  In (reject_reasons r)
     [["Outside California"]; ["Outside Kern County"];
      ["Outside California"; "Outside Kern County"]; ["Not homeowner"]].
Proof.
  intros Hr Ht. apply scoreLead_returns in Hr.
  destruct Hr as [rej Hg Hne | owns Hg Ho Hne | ]; simpl in *.
  - repeat split; auto.
    apply gates_range in Hg. simpl in Hg.
    destruct Hg as [<-|[<-|[<-|[<-|[]]]]]; simpl; auto; done.
  - repeat split; auto; simpl; auto.
  - set (st := bump _ _ _) in *.
    destruct (verdict_bands [] st) as [B|[B|B]];
      destruct B as (_ & Ht' & _); rewrite Ht' in Ht; discriminate.
Qed.

Lemma disqualified_result_shape_witness :
  scoreLead kern_only renter_in_LA =
    Ok {| score := 0; tier := "Disqualified"; lead_temperature := "Cold";
          reject_reasons := ["Outside Kern County"];
          score_reasons := "Outside Kern County"; marshall_eligible := false |} /\
  "Cold" = "Cold" /\
  "Outside Kern County" = Str.join " | " ["Outside Kern County"] /\
  In ["Outside Kern County"]
     [["Outside California"]; ["Outside Kern County"];
      ["Outside California"; "Outside Kern County"]; ["Not homeowner"]].
Proof.
  split; [reflexivity|].
  exact (disqualified_result_shape kern_only renter_in_LA _ eq_refl eq_refl).
Defined.

(** X6. A result is eligible for Marshall only if no geo gate rejected the
    record, ownership resolved to "yes" and the score is at least 75. *)
Theorem eligible_only_for_owners
    (env : GateConfig) (lead : LeadRecord) (r : ScoreResult) :
  scoreLead env lead = Ok r ->
  marshall_eligible r = true ->
  scoreLead_gates env lead = Ok [] /\ scoreLead_owns lead = Ok "yes" /\
  (75 <= score r)%Z.
Proof.
  intros Hr He. apply scoreLead_returns in Hr.
  destruct Hr as [rej Hg Hne | owns Hg Ho Hne
                 | db rb dr rr ds rs dh rh dt rt dp rp Hg Ho]; simpl in *;
    try discriminate.
  split; [done|]. split; [done|].
  set (st := bump _ _ _) in *.
  destruct (verdict_bands [] st) as [B|[B|B]];
    destruct B as (Hs & _ & _ & He'); [lia | congruence | congruence].
Qed.

Lemma eligible_only_for_owners_witness :
  scoreLead gates_off scenario_B =
    Ok {| score := 98; tier := "Qualified – Send to Marshall";
          lead_temperature := "Hot"; reject_reasons := [];
          score_reasons :=
            "Homeowner | High bill | Roof <= 10 years | Good sun exposure | No HOA | Single family";
          marshall_eligible := true |} /\
  scoreLead_gates gates_off scenario_B = Ok [] /\
  scoreLead_owns scenario_B = Ok "yes" /\ (75 <= 98)%Z.
Proof.
  split; [reflexivity|].
  exact (eligible_only_for_owners gates_off scenario_B _ eq_refl eq_refl).
Defined.






Lemma gates_agree env lead1 lead2 :
  agree_on geo_keys lead1 lead2 ->
  scoreLead_gates env lead1 = scoreLead_gates env lead2.
Proof.
  intros H. unfold scoreLead_gates, scoreLead_state, scoreLead_county.
  rewrite (pick_ext lead1 lead2 ["State"; "state"])
    by (intros k Hk; apply H; simpl in *; tauto).
  rewrite (pick_ext lead1 lead2 ["County"; "county"])
    by (intros k Hk; apply H; simpl in *; tauto).
  done.
Qed.

Lemma owns_agree lead1 lead2 :
  agree_on owns_keys lead1 lead2 -> scoreLead_owns lead1 = scoreLead_owns lead2.
Proof.
  intros H. unfold scoreLead_owns. unfold owns_keys in H.
  by rewrite (pick_ext lead1 lead2 _ H).
Qed.

(** X9. Whether a record is disqualified, and why, depends on the state,
    county and ownership keys only: two well-formed records that agree under
    those nine keys get the same reject reasons, and the same whole result
    when these are not empty. *)
Theorem disqualification_reads_nine_keys
    (env : GateConfig) (lead1 lead2 : LeadRecord) :
  wf lead1 -> wf lead2 ->
  agree_on (geo_keys ++ owns_keys) lead1 lead2 ->
  exists r1 r2, scoreLead env lead1 = Ok r1 /\ scoreLead env lead2 = Ok r2 /\
    reject_reasons r1 = reject_reasons r2 /\
    (reject_reasons r1 <> [] -> r1 = r2).
Proof.
  intros Hwf1 Hwf2 Hagree.
  assert (Hgeo : agree_on geo_keys lead1 lead2)
    by (intros k Hk; apply Hagree, in_or_app; by left).
  assert (Hown : agree_on owns_keys lead1 lead2)
    by (intros k Hk; apply Hagree, in_or_app; by right).
  pose proof (gates_agree env _ _ Hgeo) as Eg.
  pose proof (owns_agree _ _ Hown) as Eo.
  destruct (scoreLead_total env lead1 Hwf1) as [r1 Hr1].
  destruct (scoreLead_total env lead2 Hwf2) as [r2 Hr2].
  exists r1, r2. split; [done|]. split; [done|].
  apply scoreLead_returns in Hr1, Hr2.
  destruct Hr1 as [rej1 Hg1 Hne1 | owns1 Hg1 Ho1 Hne1
                  | db rb dr rr ds rs dh rh dt rt dp rp Hg1 Ho1];
    destruct Hr2 as [rej2 Hg2 Hne2 | owns2 Hg2 Ho2 Hne2
                    | db' rb' dr' rr' ds' rs' dh' rh' dt' rt' dp' rp' Hg2 Ho2];
    simpl; rewrite ?verdict_reject_reasons; try congruence.
  - assert (rej1 = rej2) as -> by congruence. done.
  - done.
  - done.
Qed.

Lemma disqualification_reads_nine_keys_witness :
  wf bill_100 /\ wf bill_300 /\
  agree_on (geo_keys ++ owns_keys) bill_100 bill_300 /\
  exists r1 r2, scoreLead kern_only bill_100 = Ok r1 /\
    scoreLead kern_only bill_300 = Ok r2 /\
    reject_reasons r1 = reject_reasons r2 /\
    (reject_reasons r1 <> [] -> r1 = r2).
Proof.
  assert (Hwf : wf bill_100) by (by apply wf_record).
  assert (Hwf' : wf bill_300) by (by apply wf_insert).
  assert (Hagree : agree_on (geo_keys ++ owns_keys) bill_100 bill_300).
  { intros k Hk. unfold bill_300. rewrite lookup_insert_ne; [done|].
    intros <-. simpl in Hk. repeat destruct Hk as [Hk|Hk]; discriminate || done. }
  split; [exact Hwf|]. split; [exact Hwf'|]. split; [exact Hagree|].
  exact (disqualification_reads_nine_keys kern_only bill_100 bill_300 Hwf Hwf' Hagree).
Defined.

(** * Phone numbers *)

Lemma filter_trimStart p s :
  (forall c, Str.is_space c = true -> p c = false) ->
  Str.filter p (Str.trimStart s) = Str.filter p s.
Proof.
  intros Hp. induction s as [|c s IH]; simpl; [done|].
  destruct (Str.is_space c) eqn:E; [|done]. by rewrite (Hp c E).
Qed.

Lemma filter_trimEnd p s :
  (forall c, Str.is_space c = true -> p c = false) ->
  Str.filter p (Str.trimEnd s) = Str.filter p s.
Proof.
  intros Hp. induction s as [|c s IH]; simpl; [done|].
  rewrite <- IH. destruct (Str.trimEnd s) as [|c' t]; simpl; [|done].
  destruct (Str.is_space c) eqn:E; simpl; [by rewrite (Hp c E) | done].
Qed.

Lemma filter_trim p s :
  (forall c, Str.is_space c = true -> p c = false) ->
  Str.filter p (Str.trim s) = Str.filter p s.
Proof.
  intros Hp. unfold Str.trim. by rewrite filter_trimEnd, filter_trimStart.
Qed.

Lemma space_not_digit c : Str.is_space c = true -> Str.is_digit c = false.
Proof. by destruct c as [[] [] [] [] [] [] [] []]. Qed.

Lemma filter_all p s : all_chars p (Str.filter p s) = true.
Proof.
  induction s as [|c s IH]; simpl; [done|].
  destruct (p c) eqn:E; simpl; [by rewrite E | done].
Qed.

Lemma all_filter p s : all_chars p s = true -> Str.filter p s = s.
Proof.
  induction s as [|c s IH]; simpl; [done|].
  intros [-> H]%andb_prop. by rewrite IH.
Qed.

Lemma filter_app p a b :
  Str.filter p (a ++ b) = Str.filter p a ++ Str.filter p b.
Proof.
  induction a as [|c a IH]; simpl; [done|].
  destruct (p c); simpl; by rewrite IH.
Qed.

Lemma all_digits_trim s : all_chars Str.is_digit s = true -> Str.trim s = s.
Proof.
  intros H. unfold Str.trim.
  assert (Hend : forall t, all_chars Str.is_digit t = true -> Str.trimEnd t = t).
  { induction t as [|c t IH]; simpl; [done|].
    intros [Hc Ht]%andb_prop. rewrite (IH Ht).
    destruct t; [|done].
    destruct (Str.is_space c) eqn:E; [|done].
    apply space_not_digit in E. congruence. }
  destruct s as [|c s]; simpl; [done|].
  simpl in H. apply andb_prop in H as [Hc Hs].
  destruct (Str.is_space c) eqn:E.
  - apply space_not_digit in E. congruence.
  - apply Hend. simpl. by rewrite Hc, Hs.
Qed.

Lemma drop_chars_all p n s :
  all_chars p s = true -> all_chars p (drop_chars n s) = true.
Proof.
  revert s. induction n as [|n IH]; intros [|c s]; simpl; try done.
  intros [_ H]%andb_prop. by apply IH.
Qed.

Lemma drop_chars_length n s :
  String.length (drop_chars n s) = String.length s - n.
Proof.
  revert s. induction n as [|n IH]; intros [|c s]; simpl; try done; try lia.
Qed.

Lemma drop_chars_suffix n s : exists pre, s = pre ++ drop_chars n s.
Proof.
  revert s. induction n as [|n IH]; intros s.
  - by exists "".
  - destruct s as [|c s]; simpl; [by exists ""|].
    destruct (IH s) as [pre Hpre]. exists (String c pre).
    change (String c s = String c (pre ++ drop_chars n s)). by f_equal.
Qed.

Lemma length_app a b :
  String.length (a ++ b) = String.length a + String.length b.
Proof. induction a as [|c a IH]; simpl; [done | by rewrite IH]. Qed.

Lemma drop_chars_app a b m :
  drop_chars (String.length a + m) (a ++ b) = drop_chars m b.
Proof. induction a as [|c a IH]; simpl; done. Qed.

Lemma toStr_VStr s : toStr (VStr s) = Ok (Str.trim s).
Proof. reflexivity. Qed.

Lemma normalizePhone_digits v :
  normalizePhone v =
    (let* s := toStr v in
     let digits := Str.filter Str.is_digit s in
     Ok (slice_last 10 digits)).
Proof.
  unfold normalizePhone. destruct (toStr v) as [s|e]; simpl; [|done].
  generalize (Str.filter Str.is_digit s). intros d.
  destruct (Str.nonempty d) eqn:En; cbn [negb].
  - destruct (10 <? String.length d)%nat eqn:E; [done|].
    apply Nat.ltb_ge in E. unfold slice_last.
    by replace (String.length d - 10) with 0 by lia.
  - unfold Str.nonempty in En. apply negb_false_iff, String.eqb_eq in En.
    by subst d.
Qed.

(** X10. [normalizePhone] returns digits only, at most ten of them: the
    last ten digits of the trimmed text, or all of them when there are
    fewer. *)
Theorem normalizePhone_keeps_last_ten_digits (v : value) (s p : string) :
  toStr v = Ok s ->
  normalizePhone v = Ok p ->
  all_chars Str.is_digit p = true /\ String.length p <= 10 /\
  String.length p = Nat.min 10 (String.length (Str.filter Str.is_digit s)) /\
  exists pre, Str.filter Str.is_digit s = pre ++ p.
Proof.
  intros Hs Hp. rewrite normalizePhone_digits, Hs in Hp. simpl in Hp.
  inversion Hp; subst p. unfold slice_last.
  set (d := Str.filter Str.is_digit s).
  split; [apply drop_chars_all, filter_all|].
  rewrite drop_chars_length.
  split; [lia|]. split; [lia|]. apply drop_chars_suffix.
Qed.

Lemma normalizePhone_keeps_last_ten_digits_witness :
  toStr (VStr phone_formatted) = Ok phone_formatted /\
  normalizePhone (VStr phone_formatted) = Ok phone_plain /\
  all_chars Str.is_digit phone_plain = true /\ String.length phone_plain <= 10 /\
  String.length phone_plain
    = Nat.min 10 (String.length (Str.filter Str.is_digit phone_formatted)) /\
  exists pre, Str.filter Str.is_digit phone_formatted = pre ++ phone_plain.
Proof.
  split; [reflexivity|]. split; [reflexivity|].
  exact (normalizePhone_keeps_last_ten_digits
           (VStr phone_formatted) phone_formatted phone_plain eq_refl eq_refl).
Defined.

(** X11. [normalizePhone] is idempotent: a normalised number is returned
    unchanged. *)
Theorem normalizePhone_idempotent (v : value) (p : string) :
  normalizePhone v = Ok p -> normalizePhone (VStr p) = Ok p.
Proof.
  intros Hp. pose proof Hp as Hp'.
  rewrite normalizePhone_digits in Hp'. inv_bind Hp'. simpl in Hp'.
  injection Hp' as H0.
  assert (Hall : all_chars Str.is_digit p = true).
  { subst p. apply drop_chars_all, filter_all. }
  assert (Hlen : String.length p <= 10).
  { subst p. unfold slice_last. rewrite drop_chars_length. lia. }
  rewrite normalizePhone_digits, toStr_VStr. cbn [bind].
  rewrite (all_digits_trim _ Hall), (all_filter _ _ Hall).
  unfold slice_last. by replace (String.length p - 10) with 0 by lia.
Qed.

Lemma normalizePhone_idempotent_witness :
  normalizePhone (VStr phone_formatted) = Ok phone_plain /\
  normalizePhone (VStr phone_plain) = Ok phone_plain.
Proof.
  split; [reflexivity|].
  exact (normalizePhone_idempotent (VStr phone_formatted) phone_plain eq_refl).
Defined.

(** X12. Whatever is written in front of a number that already has ten
    digits (a country code, a plus sign) does not change the result: this is
    what makes "+1 ..." and the bare number match. *)
Theorem normalizePhone_ignores_prefix (pre s : string) :
  10 <= String.length (Str.filter Str.is_digit s) ->
  normalizePhone (VStr (pre ++ s)) = normalizePhone (VStr s).
Proof.
  intros Hlen. rewrite !normalizePhone_digits, !toStr_VStr. cbn [bind].
  rewrite !(filter_trim _ _ space_not_digit), filter_app.
  f_equal. unfold slice_last. rewrite length_app.
  set (a := Str.filter Str.is_digit pre). set (b := Str.filter Str.is_digit s) in *.
  replace (String.length a + String.length b - 10)
    with (String.length a + (String.length b - 10)) by lia.
  apply drop_chars_app.
Qed.

Lemma normalizePhone_ignores_prefix_witness :
  10 <= String.length (Str.filter Str.is_digit "(555) 123-4567") /\
  normalizePhone (VStr ("+1 " ++ "(555) 123-4567"))
    = normalizePhone (VStr "(555) 123-4567").
Proof.
  assert (H : 10 <= String.length (Str.filter Str.is_digit "(555) 123-4567"))
    by (vm_compute; lia).
  split; [exact H|].
  exact (normalizePhone_ignores_prefix "+1 " "(555) 123-4567" H).
Defined.

(** * Airtable lookups *)

Lemma escape_quotes_head s :
  match escape_quotes s with
  | String c _ => c <> "'"%char
  | EmptyString => True
  end.
Proof.
  destruct s as [|c s]; simpl; [done|].
  destruct (Ascii.eqb c "'") eqn:E; [discriminate|].
  by apply Ascii.eqb_neq in E.
Qed.

Lemma unescape_escape s : unescape_quotes (escape_quotes s) = s.
Proof.
  induction s as [|c s IH]; [done|].
  cbn [escape_quotes]. destruct (Ascii.eqb c "'") eqn:E.
  - apply Ascii.eqb_eq in E. subst c. cbn. by rewrite IH.
  - pose proof (escape_quotes_head s) as Hhead.
    cbn [unescape_quotes]. fold unescape_quotes.
    destruct (escape_quotes s) as [|c' t] eqn:Es.
    + destruct s; [done|]. simpl in Es. by destruct (Ascii.eqb _ _).
    + rewrite <- IH.
      apply Ascii.eqb_neq in Hhead. rewrite Hhead, andb_false_r. done.
Qed.

Lemma escape_quotes_length s :
  String.length (escape_quotes s) = String.length s + count_char "'" s.
Proof.
  induction s as [|c s IH]; simpl; [done|].
  destruct (Ascii.eqb c "'"); simpl; rewrite IH; lia.
Qed.

Lemma escape_quotes_none s : count_char "'" s = 0 -> escape_quotes s = s.
Proof.
  induction s as [|c s IH]; simpl; [done|].
  destruct (Ascii.eqb c "'"); simpl; [lia|]. intros H. by rewrite IH.
Qed.

(** X13. [escapeAirtableString] puts one backslash in front of each quote
    of the trimmed text and changes nothing else: taking these backslashes
    away gives the trimmed text back, the length grows by the number of
    quotes, and a text without quotes is only trimmed. *)
Theorem escapeAirtableString_round_trip (v : value) (t e : string) :
  toStr v = Ok t ->
  escapeAirtableString v = Ok e ->
  unescape_quotes e = t /\
  String.length e = String.length t + count_char "'" t /\
  (count_char "'" t = 0 -> e = t).
Proof.
  intros Ht He. unfold escapeAirtableString in He. rewrite Ht in He.
  simpl in He. injection He as <-.
  split; [apply unescape_escape|]. split; [apply escape_quotes_length|].
  apply escape_quotes_none.
Qed.

Lemma escapeAirtableString_round_trip_witness :
  toStr (VStr " O'Brien ") = Ok "O'Brien" /\
  escapeAirtableString (VStr " O'Brien ") = Ok "O\'Brien" /\
  unescape_quotes "O\'Brien" = "O'Brien" /\
  String.length "O\'Brien" = String.length "O'Brien" + count_char "'" "O'Brien" /\
  (count_char "'" "O'Brien" = 0 -> "O\'Brien" = "O'Brien").
Proof.
  split; [reflexivity|]. split; [reflexivity|].
  exact (escapeAirtableString_round_trip (VStr " O'Brien ") "O'Brien" "O\'Brien"
           eq_refl eq_refl).
Defined.

Lemma nonempty_false s : Str.nonempty s = false -> s = "".
Proof. unfold Str.nonempty. by intros H%negb_false_iff%String.eqb_eq. Qed.

Lemma buildDedupeFormula_spec (keys : DedupeKeys) :
  exists f, buildDedupeFormula keys = Ok f /\
    (f = "" <-> phone keys = "" /\ email keys = "" /\ address keys = "") /\
    (f <> "" -> String.prefix "OR(" f = true) /\
    (address keys = "" ->
     forall z, buildDedupeFormula
                 {| phone := phone keys; email := email keys;
                    address := address keys; zip := z |} = Ok f).
Proof.
  destruct keys as [p e a z]. unfold buildDedupeFormula. cbn [phone email address zip].
  destruct (Str.nonempty p) eqn:Ep, (Str.nonempty e) eqn:Ee,
    (Str.nonempty a) eqn:Ea, (Str.nonempty z) eqn:Ez;
    repeat match goal with
           | H : Str.nonempty _ = true |- _ => apply nonempty_inv in H
           | H : Str.nonempty _ = false |- _ => apply nonempty_false in H; subst
           end;
    cbn; eexists; (split; [reflexivity|]);
    (split; [split; [discriminate || tauto | tauto || done]|]);
    (split; [done || (intros _; reflexivity)|]);
    intros Ha z'; try done;
    unfold Str.nonempty; cbn; reflexivity.
Qed.

(** X14. [buildDedupeFormula] never throws on strings. The formula is empty
    exactly when phone, email and address are all empty, whatever the zip;
    otherwise it starts with [OR(]; and a zip without an address is
    ignored. *)
Theorem buildDedupeFormula_empty_iff (keys : DedupeKeys) :
  exists f, buildDedupeFormula keys = Ok f /\
    (f = "" <-> phone keys = "" /\ email keys = "" /\ address keys = "") /\
    (f <> "" -> String.prefix "OR(" f = true) /\
    (address keys = "" ->
     forall z, buildDedupeFormula
                 {| phone := phone keys; email := email keys;
                    address := address keys; zip := z |} = Ok f).
Proof.
  destruct keys as [p e a z]. unfold buildDedupeFormula. cbn [phone email address zip].
  destruct (Str.nonempty p) eqn:Ep, (Str.nonempty e) eqn:Ee,
    (Str.nonempty a) eqn:Ea, (Str.nonempty z) eqn:Ez;
    repeat match goal with
           | H : Str.nonempty _ = true |- _ => apply nonempty_inv in H
           | H : Str.nonempty _ = false |- _ => apply nonempty_false in H; subst
           end;
    cbn; eexists; (split; [reflexivity|]);
    (split; [split; [discriminate || tauto | tauto || done]|]);
    (split; [done || (intros _; reflexivity)|]);
    intros Ha z'; try done;
    unfold Str.nonempty; cbn; reflexivity.
Qed.

Lemma buildDedupeFormula_empty_iff_witness :
  exists f,
    buildDedupeFormula {| phone := ""; email := ""; address := ""; zip := "93301" |}
      = Ok f /\
    (f = "" <-> "" = "" /\ "" = "" /\ "" = "").
Proof.
  destruct (buildDedupeFormula_empty_iff
              {| phone := ""; email := ""; address := ""; zip := "93301" |})
    as (f & Hf & Hiff & _).
  exists f. split; [exact Hf | exact Hiff].
Defined.

Lemma coalesce_ext lead1 lead2 keys :
  agree_on keys lead1 lead2 -> coalesce lead1 keys = coalesce lead2 keys.
Proof.
  induction keys as [|k keys IH]; intros H; [done|].
  assert (Hk : get lead1 k = get lead2 k)
    by (unfold get; rewrite (H k); [done | by left]).
  assert (Hrest : coalesce lead1 keys = coalesce lead2 keys)
    by (apply IH; intros k' Hk'; apply H; by right).
  cbn [coalesce]. rewrite Hk, Hrest. done.
Qed.

Lemma coalesce_same_except skip keys lead1 lead2 :
  same_except skip lead1 lead2 ->
  forallb (fun k => negb (Array_includes skip k)) keys = true ->
  coalesce lead1 keys = coalesce lead2 keys.
Proof.
  intros Hsame Hdisj. apply coalesce_ext. intros k Hk. apply Hsame.
  rewrite forallb_forall in Hdisj. specialize (Hdisj _ Hk).
  intros Hin. apply Array_includes_In in Hin. by rewrite Hin in Hdisj.
Qed.

Lemma coalesce_wf lead keys :
  wf lead -> is_plain (coalesce lead keys) = true.
Proof.
  intros Hwf. induction keys as [|k keys IH]; [done|].
  pose proof (get_wf lead k Hwf) as Hg. cbn [coalesce].
  destruct keys as [|k' keys]; [done|].
  destruct (get lead k); try done.
Qed.

(** [a ?? b ?? ...]: the first value that is neither [undefined] nor [null]
    wins. *)
Lemma coalesce_first lead before k after :
  (forall k', In k' before -> nullish (get lead k') = true) ->
  nullish (get lead k) = false ->
  coalesce lead (before ++ k :: after) = get lead k.
Proof.
  intros Hbefore Hk. induction before as [|b before IH]; cbn [app coalesce].
  - destruct after; [done|]. by destruct (get lead k).
  - assert (Hb : nullish (get lead b) = true) by (apply Hbefore; by left).
    rewrite <- IH by (intros; apply Hbefore; by right).
    destruct (before ++ k :: after)%list eqn:E; [by destruct before|].
    by destruct (get lead b).
Qed.

Lemma normalizePhone_plain v :
  is_plain v = true -> exists p, normalizePhone v = Ok p.
Proof.
  intros H. destruct (toStr_plain v H) as [s Hs].
  rewrite normalizePhone_digits, Hs. simpl. eauto.
Qed.

Lemma buildDedupeFormula_total keys : exists f, buildDedupeFormula keys = Ok f.
Proof. destruct (buildDedupeFormula_spec keys) as (f & Hf & _). eauto. Qed.

Lemma keys_phone_digits lead keys :
  upsertLeadToAirtable_keys lead = Ok keys ->
  normalizePhone (coalesce lead phone_keys) = Ok (phone keys).
Proof.
  unfold upsertLeadToAirtable_keys, phone_keys. intros H.
  inv_bind H. inv_bind H. inv_bind H. inv_bind H. injection H as <-.
  cbn [phone]. rewrite E. destruct (Str.nonempty x) eqn:En; [done|].
  by apply nonempty_false in En as ->.
Qed.

Lemma extractConsentFlags_inv lead c :
  extractConsentFlags lead = Ok c ->
  truthy (coalesce lead email_consent_keys) = Ok (opt_in_email c) /\
  truthy (coalesce lead sms_consent_keys) = Ok (opt_in_sms c).
Proof.
  unfold extractConsentFlags, email_consent_keys, sms_consent_keys. intros H.
  inv_bind H. inv_bind H. injection H as <-. by rewrite E, E0.
Qed.

Lemma truthy_plain v : is_plain v = true -> exists b, truthy v = Ok b.
Proof.
  intros H. destruct (lower_plain v H) as [s Hs].
  unfold truthy. rewrite Hs. simpl. eauto.
Qed.

Lemma extractConsentFlags_total lead :
  wf lead -> exists c, extractConsentFlags lead = Ok c.
Proof.
  intros Hwf. unfold extractConsentFlags.
  destruct (truthy_plain _ (coalesce_wf lead
    ["opt_in_email"; "Opt-in email?"; "Email consent checkbox"; "email_consent"]
    Hwf)) as [e ->].
  destruct (truthy_plain _ (coalesce_wf lead
    ["opt_in_sms"; "Opt-in SMS?"; "SMS consent checkbox"; "sms_consent"]
    Hwf)) as [s ->].
  simpl. eauto.
Qed.

Lemma requireEnv_message env name message :
  requireEnv env name = Some message -> message = "Missing env var: " ++ name.
Proof.
  unfold requireEnv. destruct (env !! name) as [[|c v]|]; congruence.
Qed.

Lemma requireEnv_set env name :
  requireEnv env name = None <-> exists v, env !! name = Some v /\ v <> "".
Proof.
  unfold requireEnv. destruct (env !! name) as [[|c v]|]; split;
    try discriminate; try (intros (v' & [= <-] & Hv)); try done.
  intros _. eexists. split; [reflexivity | discriminate].
Qed.

Lemma buildAirtableFieldsFromLead_total now lead scored consent meta :
  wf lead ->
  exists fields,
    buildAirtableFieldsFromLead now lead scored consent meta = Ok fields.
Proof.
  intros Hwf. unfold buildAirtableFieldsFromLead.
  repeat match goal with
  | |- context [toStr (coalesce lead ?keys)] =>
      destruct (toStr_plain _ (coalesce_wf lead keys Hwf)) as [? ->];
      cbn [bind]
  end.
  pose proof (coalesce_wf lead ["lead_source"; "Lead source"] Hwf) as Hsrc.
  destruct (coalesce lead ["lead_source"; "Lead source"]);
    try discriminate Hsrc; cbn [toStr toString bind]; eauto.
Qed.

(** X15. With the three Airtable variables set, on a well-formed lead of
    ASCII text, [upsertLeadToAirtable] reaches its lookup without a throw:
    the keys, the consent flags, the fields and the filter formula are
    computed; the phone key is made of at most ten digits; and the formula
    is empty, so that no record is looked up, exactly when the lead has no
    phone digit, no email and no address. When one of the three variables
    is unset or empty, it throws "Missing env var" for one of them before
    it reads the lead; the default "Leads" of the table name does not
    prevent it. *)
Theorem lookup_formula_of_lead
    (env : ProcessEnv) (now : string) (lead : LeadRecord)
    (scored : ScoreResult) (meta : Meta) :
  ((forall name, In name airtable_vars ->
      exists v, env !! name = Some v /\ v <> "") ->
   wf lead -> ascii_record lead ->
   exists keys consent fields f,
     upsertLeadToAirtable_keys lead = Ok keys /\
     extractConsentFlags lead = Ok consent /\
     buildAirtableFieldsFromLead now lead scored consent meta = Ok fields /\
     buildDedupeFormula keys = Ok f /\
     upsertLeadToAirtable_lookup env now lead scored meta = Lookup fields f /\
     all_chars Str.is_digit (phone keys) = true /\
     String.length (phone keys) <= 10 /\
     (f = "" <-> phone keys = "" /\ email keys = "" /\ address keys = "")) /\
  (forall name, In name airtable_vars ->
     env !! name = None \/ env !! name = Some "" ->
     exists missing, In missing airtable_vars /\
       upsertLeadToAirtable_lookup env now lead scored meta
         = MissingEnv ("Missing env var: " ++ missing)).
Proof.
  split.
  - intros Hset Hwf _.
    assert (Hkeys : exists keys, upsertLeadToAirtable_keys lead = Ok keys).
    { unfold upsertLeadToAirtable_keys.
      destruct (normalizePhone_plain _ (coalesce_wf lead
        ["phone"; "Phone"; "What is your best phone number"] Hwf)) as [p ->].
      destruct (toStr_plain _ (coalesce_wf lead
        ["email"; "Email"; "What is your best email"] Hwf)) as [e ->].
      destruct (toStr_plain _ (coalesce_wf lead
        ["address"; "Address";
         "What is your property address you’re asking in regards to?"] Hwf))
        as [a ->].
      destruct (toStr_plain _ (coalesce_wf lead
        ["zip"; "Zip"; "Zip/postal code"] Hwf)) as [z ->].
      simpl. eauto. }
    destruct Hkeys as [keys Hkeys].
    destruct (extractConsentFlags_total lead Hwf) as [consent Hconsent].
    destruct (buildAirtableFieldsFromLead_total now lead scored consent meta Hwf)
      as [fields Hfields].
    destruct (buildDedupeFormula_spec keys) as (f & Hf & Hiff & _).
    exists keys, consent, fields, f.
    split; [done|]. split; [done|]. split; [done|]. split; [done|].
    split.
    { unfold upsertLeadToAirtable_lookup.
      rewrite (proj2 (requireEnv_set env "AIRTABLE_API_KEY"))
        by (apply Hset; by left).
      rewrite (proj2 (requireEnv_set env "AIRTABLE_BASE_ID"))
        by (apply Hset; right; by left).
      rewrite (proj2 (requireEnv_set env "AIRTABLE_TABLE_NAME"))
        by (apply Hset; right; right; by left).
      rewrite Hkeys. cbn [bind]. rewrite Hconsent. cbn [bind].
      rewrite Hfields. cbn [bind]. rewrite Hf. done. }
    pose proof (keys_phone_digits _ _ Hkeys) as Hp.
    rewrite normalizePhone_digits in Hp. inv_bind Hp. simpl in Hp.
    injection Hp as Hp.
    split; [rewrite <- Hp; apply drop_chars_all, filter_all|].
    split; [|done].
    rewrite <- Hp. unfold slice_last. rewrite drop_chars_length. lia.
  - intros name Hin Hunset.
    assert (Hreq : exists message, requireEnv env name = Some message).
    { unfold requireEnv. destruct Hunset as [-> | ->]; eauto. }
    destruct Hreq as [message Hreq].
    unfold upsertLeadToAirtable_lookup.
    destruct (requireEnv env "AIRTABLE_API_KEY") as [m1|] eqn:E1.
    { apply requireEnv_message in E1 as ->. eexists. split; [|reflexivity]. by left. }
    destruct (requireEnv env "AIRTABLE_BASE_ID") as [m2|] eqn:E2.
    { apply requireEnv_message in E2 as ->. eexists. split; [|reflexivity].
      right. by left. }
    destruct (requireEnv env "AIRTABLE_TABLE_NAME") as [m3|] eqn:E3.
    { apply requireEnv_message in E3 as ->. eexists. split; [|reflexivity].
      right. right. by left. }
    destruct Hin as [<- | [<- | [<- | []]]]; congruence.
Qed.

Lemma lookup_formula_of_lead_witness :
  (forall name, In name airtable_vars ->
     exists v, airtable_env !! name = Some v /\ v <> "") /\
  wf contact_formatted /\ ascii_record contact_formatted /\
  exists keys consent fields f,
    upsertLeadToAirtable_keys contact_formatted = Ok keys /\
    extractConsentFlags contact_formatted = Ok consent /\
    buildAirtableFieldsFromLead "2026-01-01T00:00:00.000Z" contact_formatted
      sample_scored consent sample_meta = Ok fields /\
    buildDedupeFormula keys = Ok f /\
    upsertLeadToAirtable_lookup airtable_env "2026-01-01T00:00:00.000Z"
      contact_formatted sample_scored sample_meta = Lookup fields f /\
    all_chars Str.is_digit (phone keys) = true /\
    String.length (phone keys) <= 10 /\
    (f = "" <-> phone keys = "" /\ email keys = "" /\ address keys = "").
Proof.
  assert (Hset : forall name, In name airtable_vars ->
            exists v, airtable_env !! name = Some v /\ v <> "").
  { intros name [<- | [<- | [<- | []]]]; eexists;
      (split; [reflexivity | discriminate]). }
  assert (Hwf : wf contact_formatted) by (by apply wf_record).
  assert (Hascii : ascii_record contact_formatted) by (by apply ascii_record_record).
  split; [exact Hset|]. split; [exact Hwf|]. split; [exact Hascii|].
  exact (proj1 (lookup_formula_of_lead airtable_env "2026-01-01T00:00:00.000Z"
                  contact_formatted sample_scored sample_meta)
           Hset Hwf Hascii).
Defined.

(** With the key and the base set and no [AIRTABLE_TABLE_NAME], the write
    stops at the third guard. *)
Lemma upsert_needs_table_name :
  upsertLeadToAirtable_lookup no_table_name "2026-01-01T00:00:00.000Z"
    contact_formatted sample_scored sample_meta
  = MissingEnv "Missing env var: AIRTABLE_TABLE_NAME".
Proof. reflexivity. Qed.

(** X16. The filter formula reads the phone only through [normalizePhone]:
    two leads that differ only under the phone keys, and whose phones
    normalise to the same digits, get the same formula. *)
Theorem lookup_formula_ignores_phone_format (lead1 lead2 : LeadRecord) :
  same_except phone_keys lead1 lead2 ->
  normalizePhone (coalesce lead1 phone_keys)
    = normalizePhone (coalesce lead2 phone_keys) ->
  upsertLeadToAirtable_formula lead1 = upsertLeadToAirtable_formula lead2.
Proof.
  intros Hsame Hphone.
  unfold upsertLeadToAirtable_formula, upsertLeadToAirtable_keys.
  unfold phone_keys in Hphone. rewrite Hphone.
  rewrite (coalesce_same_except _ ["email"; "Email"; "What is your best email"]
             _ _ Hsame eq_refl).
  rewrite (coalesce_same_except _
             ["address"; "Address";
              "What is your property address you’re asking in regards to?"]
             _ _ Hsame eq_refl).
  rewrite (coalesce_same_except _ ["zip"; "Zip"; "Zip/postal code"]
             _ _ Hsame eq_refl).
  done.
Qed.

Lemma lookup_formula_ignores_phone_format_witness :
  same_except phone_keys contact_formatted contact_plain /\
  normalizePhone (coalesce contact_formatted phone_keys)
    = normalizePhone (coalesce contact_plain phone_keys) /\
  upsertLeadToAirtable_formula contact_formatted
    = upsertLeadToAirtable_formula contact_plain.
Proof.
  assert (Hsame : same_except phone_keys contact_formatted contact_plain).
  { apply same_except_insert. right. by left. }
  split; [exact Hsame|]. split; [reflexivity|].
  exact (lookup_formula_ignores_phone_format contact_formatted contact_plain
           Hsame eq_refl).
Defined.

(** * Consent and routing *)

(** X17. Each consent flag is decided by the first of its four keys whose
    value is neither [undefined] nor [null], even when that value is blank
    or [false]: later keys are not consulted. When all four are missing the
    flag is [false]. *)
Theorem consent_first_present_key (lead : LeadRecord) (c : ConsentFlags) :
  extractConsentFlags lead = Ok c ->
  (forall before k after,
     email_consent_keys = (before ++ k :: after)%list ->
     (forall k', In k' before -> nullish (get lead k') = true) ->
     nullish (get lead k) = false ->
     truthy (get lead k) = Ok (opt_in_email c)) /\
  (forall before k after,
     sms_consent_keys = (before ++ k :: after)%list ->
     (forall k', In k' before -> nullish (get lead k') = true) ->
     nullish (get lead k) = false ->
     truthy (get lead k) = Ok (opt_in_sms c)) /\
  ((forall k, In k email_consent_keys -> nullish (get lead k) = true) ->
   opt_in_email c = false) /\
  ((forall k, In k sms_consent_keys -> nullish (get lead k) = true) ->
   opt_in_sms c = false).
Proof.
  intros H. apply extractConsentFlags_inv in H as [He Hs].
  assert (Hnone : forall keys b,
            truthy (coalesce lead keys) = Ok b ->
            (forall k, In k keys -> nullish (get lead k) = true) -> b = false).
  { intros keys b Hb Hall.
    assert (Hn : nullish (coalesce lead keys) = true).
    { clear Hb. induction keys as [|k keys IH]; [done|].
      assert (Hk : nullish (get lead k) = true) by (apply Hall; by left).
      cbn [coalesce]. destruct keys as [|k' keys]; [done|].
      destruct (get lead k); try discriminate; apply IH; intros; apply Hall; by right. }
    destruct (coalesce lead keys); try discriminate; by injection Hb. }
  split; [|split; [|split]].
  - intros before k after Hkeys Hbefore Hk.
    by rewrite <- (coalesce_first lead before k after Hbefore Hk), <- Hkeys.
  - intros before k after Hkeys Hbefore Hk.
    by rewrite <- (coalesce_first lead before k after Hbefore Hk), <- Hkeys.
  - by apply Hnone.
  - by apply Hnone.
Qed.

Lemma consent_first_present_key_witness :
  extractConsentFlags declined_then_yes
    = Ok {| opt_in_email := false; opt_in_sms := true |} /\
  truthy (get declined_then_yes "opt_in_email") = Ok false.
Proof.
  split; [reflexivity|].
  refine (proj1 (consent_first_present_key declined_then_yes
                   {| opt_in_email := false; opt_in_sms := true |} eq_refl)
            [] "opt_in_email" _ eq_refl _ eq_refl).
  intros k' [].
Defined.

(** X18. On a well-formed lead the body of [POST /score] is computed without
    a throw. The lead is routed to Marshall exactly when the result is
    eligible, which requires ownership "yes" and a score of at least 75; and
    it is marked do-not-contact exactly when neither consent flag is set. *)
Theorem score_endpoint_routing (env : GateConfig) (lead : LeadRecord) :
  wf lead ->
  exists scored consent r,
    score_endpoint env lead = Ok (scored, consent, r) /\
    scoreLead env lead = Ok scored /\
    extractConsentFlags lead = Ok consent /\
    route_to_marshall r = marshall_eligible scored /\
    (route_to_marshall r = true ->
     scoreLead_owns lead = Ok "yes" /\ (75 <= score scored)%Z) /\
    (do_not_contact r = true <->
     opt_in_email consent = false /\ opt_in_sms consent = false) /\
    outreach_allowed r = negb (do_not_contact r).
Proof.
  intros Hwf.
  destruct (scoreLead_total env lead Hwf) as [scored Hs].
  destruct (extractConsentFlags_total lead Hwf) as [consent Hc].
  exists scored, consent, (routing scored consent).
  split; [unfold score_endpoint; by rewrite Hs, Hc|].
  split; [done|]. split; [done|].
  pose proof (scoreLead_returns _ _ _ Hs) as Hret.
  assert (Hroute : route_to_marshall (routing scored consent)
                     = marshall_eligible scored /\
                   (marshall_eligible scored = true ->
                    scoreLead_owns lead = Ok "yes" /\ (75 <= score scored)%Z)).
  { destruct Hret as [rej Hg Hne | owns Hg Ho Hne
                     | db rb dr rr ds rs dh rh dt rt dp rp Hg Ho]; simpl.
    - split; [done | discriminate].
    - split; [done | discriminate].
    - set (st := bump _ _ _).
      destruct (verdict_bands [] st) as [B|[B|B]];
        destruct B as (Hsc & Ht & _ & He); rewrite Ht, He;
        (split; [done | intros; (split; [done | lia]) || discriminate]). }
  destruct Hroute as [Hr1 Hr2].
  split; [done|]. split; [rewrite Hr1; exact Hr2|].
  simpl. destruct (opt_in_sms consent), (opt_in_email consent); simpl;
    (split; [|done]); intuition congruence.
Qed.

Lemma score_endpoint_routing_witness :
  wf scenario_B /\
  exists scored consent r,
    score_endpoint gates_off scenario_B = Ok (scored, consent, r) /\
    scoreLead gates_off scenario_B = Ok scored /\
    extractConsentFlags scenario_B = Ok consent /\
    route_to_marshall r = marshall_eligible scored /\
    (route_to_marshall r = true ->
     scoreLead_owns scenario_B = Ok "yes" /\ (75 <= score scored)%Z) /\
    (do_not_contact r = true <->
     opt_in_email consent = false /\ opt_in_sms consent = false) /\
    outreach_allowed r = negb (do_not_contact r).
Proof.
  assert (Hwf : wf scenario_B) by (by apply wf_record).
  split; [exact Hwf|].
  exact (score_endpoint_routing gates_off scenario_B Hwf).
Defined.

(** * The shared secret *)

(** X19. [requireSecret] lets a request through in two cases only: a
    non-empty secret is configured and the header carries exactly that
    secret; or no secret is configured and the server does not run in
    production. It answers 401 when a secret is configured and the header
    differs, and 500 when none is configured in production. *)
Theorem requireSecret_passes_iff (env : ServerEnv) (header : option string) :
  (requireSecret env header = Next <->
   (exists s, s <> "" /\ BRAIN_SECRET env = Some s /\ header = Some s) \/
   (default "" (BRAIN_SECRET env) = "" /\
    default "development" (NODE_ENV env) <> "production")) /\
  (forall s, s <> "" -> BRAIN_SECRET env = Some s -> header <> Some s ->
     requireSecret env header = Refuse 401 "Unauthorized") /\
  (default "" (BRAIN_SECRET env) = "" -> NODE_ENV env = Some "production" ->
     requireSecret env header
       = Refuse 500 "Server misconfigured (missing BRAIN_SECRET)").
Proof.
  unfold requireSecret.
  destruct env as [node secret]. cbn [NODE_ENV BRAIN_SECRET].
  destruct (Str.nonempty (default "" secret)) eqn:Es; cbn [negb].
  - apply nonempty_inv in Es.
    destruct (Str.nonempty (default "" header)) eqn:Eh; cbn [negb orb].
    + apply nonempty_inv in Eh.
      destruct (String.eqb (default "" header) (default "" secret)) eqn:Eeq;
        cbn [negb].
      * apply String.eqb_eq in Eeq.
        destruct header as [h|], secret as [s|]; simpl in *; try done.
        subst h. split; [|split].
        -- split; [intros _; left; by exists s | done].
        -- intros s' _ [= <-] Hne. done.
        -- intros ->. done.
      * apply String.eqb_neq in Eeq.
        split; [|split]; [| done | intros E; by rewrite E in Es].
        split; [discriminate|].
        intros [(s & Hs & -> & ->) | [E _]]; simpl in *; done.
    + apply nonempty_false in Eh.
      split; [|split]; [| done | intros E; by rewrite E in Es].
      split; [discriminate|].
      intros [(s & Hs & -> & ->) | [E _]]; simpl in *; done.
  - apply nonempty_false in Es. rewrite Es.
    destruct (String.eqb (default "development" node) "production") eqn:En.
    + apply String.eqb_eq in En.
      split; [|split]; [| | done].
      * split; [discriminate|].
        intros [(s & Hs & -> & ->) | [_ Hn]]; simpl in *; done.
      * intros s Hs -> _. simpl in Es. done.
    + apply String.eqb_neq in En.
      split; [|split].
      * split; [intros _; by right | done].
      * intros s Hs -> _. simpl in Es. done.
      * intros _ ->. simpl in En. done.
Qed.

Lemma requireSecret_passes_iff_witness :
  requireSecret production_with_secret (Some "s3cret") = Next /\
  requireSecret production_with_secret (Some "guess") = Refuse 401 "Unauthorized" /\
  requireSecret production_with_secret None = Refuse 401 "Unauthorized".
Proof.
  assert (Hne : "s3cret" <> "") by discriminate.
  assert (Hdiff : Some "guess" <> Some "s3cret") by discriminate.
  assert (Hnone : (None : option string) <> Some "s3cret") by discriminate.
  split; [|split].
  - apply (proj1 (requireSecret_passes_iff production_with_secret (Some "s3cret"))).
    left. exists "s3cret". by repeat split.
  - exact (proj1 (proj2 (requireSecret_passes_iff production_with_secret
                           (Some "guess"))) "s3cret" Hne eq_refl Hdiff).
  - exact (proj1 (proj2 (requireSecret_passes_iff production_with_secret None))
             "s3cret" Hne eq_refl Hnone).
Defined.

(** * The earlier scorer *)















Lemma all_chars_and p q s :
  all_chars p s = true -> all_chars q s = true ->
  all_chars (fun c => p c && q c) s = true.
Proof.
  induction s as [|c s IH]; simpl; [done|].
  intros [-> Hp]%andb_prop [-> Hq]%andb_prop. simpl. by apply IH.
Qed.

Lemma all_chars_filter p q s :
  all_chars p s = true -> all_chars p (Str.filter q s) = true.
Proof.
  induction s as [|c s IH]; simpl; [done|].
  intros [Hc Hs]%andb_prop. destruct (q c); simpl; [rewrite Hc|]; by apply IH.
Qed.

Lemma all_chars_trimStart p s :
  all_chars p s = true -> all_chars p (Str.trimStart s) = true.
Proof.
  induction s as [|c s IH]; simpl; [done|].
  intros [Hc Hs]%andb_prop. destruct (Str.is_space c); simpl; [by apply IH|].
  by rewrite Hc, Hs.
Qed.

Lemma all_chars_trimEnd p s :
  all_chars p s = true -> all_chars p (Str.trimEnd s) = true.
Proof.
  induction s as [|c s IH]; simpl; [done|].
  intros [Hc Hs]%andb_prop. specialize (IH Hs).
  destruct (Str.trimEnd s); simpl.
  - destruct (Str.is_space c); simpl; [done | by rewrite Hc].
  - by rewrite Hc.
Qed.

Lemma all_chars_trim p s :
  all_chars p s = true -> all_chars p (Str.trim s) = true.
Proof. intros H. by apply all_chars_trimEnd, all_chars_trimStart. Qed.

Lemma all_chars_collapse p s :
  p " "%char = true -> all_chars p s = true ->
  all_chars p (Legacy.collapse_spaces s) = true.
Proof.
  intros Hsp. induction s as [|c s IH]; [done|].
  cbn [all_chars]. intros [Hc Hs]%andb_prop. specialize (IH Hs).
  cbn [Legacy.collapse_spaces]. destruct (Str.is_space c).
  - destruct s as [|c' s']; [simpl; by rewrite Hsp|].
    destruct (Str.is_space c'); [done|]. cbn [all_chars]. by rewrite Hsp.
  - cbn [all_chars]. by rewrite Hc.
Qed.

Lemma collapse_spaces_plain s :
  all_chars (fun c => negb (Str.is_space c) || Ascii.eqb c " ")
    (Legacy.collapse_spaces s) = true.
Proof.
  induction s as [|c s IH]; [done|].
  cbn [Legacy.collapse_spaces]. destruct (Str.is_space c) eqn:Ec.
  - destruct s as [|c' s']; [done|].
    destruct (Str.is_space c'); [done|]. cbn [all_chars]. by rewrite IH.
  - cbn [all_chars]. by rewrite Ec, IH.
Qed.

Lemma lower_char_not_upper c : Str.is_upper (Str.lower_char c) = false.
Proof. by destruct c as [[] [] [] [] [] [] [] []]. Qed.

Lemma toLowerCase_not_upper s :
  all_chars (fun c => negb (Str.is_upper c)) (Str.toLowerCase s) = true.
Proof.
  unfold Str.toLowerCase. induction s as [|c s IH]; simpl; [done|].
  by rewrite lower_char_not_upper, IH.
Qed.

(** X21. [normalizeAddress] returns text without upper-case letters, without
    [.], [,] and [#], with no white space other than plain spaces, and with
    no space at either end. *)
Theorem normalizeAddress_alphabet (addr : value) (a : string) :
  Legacy.normalizeAddress addr = Ok a ->
  all_chars address_char a = true /\ Str.trim a = a.
Proof.
  unfold Legacy.normalizeAddress. intros H. inv_bind H. injection H as <-.
  split; [|apply trim_idem].
  unfold lower in E. inv_bind E. injection E as <-.
  apply all_chars_trim. unfold address_char.
  apply all_chars_and; [apply all_chars_and|].
  - apply all_chars_filter, all_chars_collapse; [done|].
    apply toLowerCase_not_upper.
  - apply filter_all.
  - apply all_chars_filter, collapse_spaces_plain.
Qed.

Lemma normalizeAddress_alphabet_witness :
  Legacy.normalizeAddress (VStr "  12  Main St. ,  Apt #4 ")
    = Ok "12 main st  apt 4" /\
  all_chars address_char "12 main st  apt 4" = true /\
  Str.trim "12 main st  apt 4" = "12 main st  apt 4".
Proof.
  split; [reflexivity|].
  exact (normalizeAddress_alphabet (VStr "  12  Main St. ,  Apt #4 ")
           "12 main st  apt 4" eq_refl).
Defined.
